(** * real-estate-map: the paginated collector and the address-resolution cache

    A shallow embedding of [src/main.py]: the page fetcher and the
    paginated collector ([fetch_page], [fetch_all_apt_trade_data_async]),
    the geocoding resolver with its process-wide cache ([get_lat_lon],
    [ADDRESS_CACHE]), the cache file written and read by [main], and the
    loop of [main] that filters the records written to the output file.

    The network is not part of the program, so every function that talks
    to it takes the peer as an argument: a function from page requests to
    HTTP replies for the transaction API, a function from the queries
    posted so far and the next query to a reply for the geocoder. The
    replies are taken where the parsers leave them: the tree of
    [ET.fromstring], the document of [json.loads]. Exceptions are values of
    an error monad, [print] calls are events of a log, and the event loop
    of [asyncio.gather] is a step function over the tasks and the counter
    of the semaphore. *)

From Stdlib Require Import ZArith NArith List String Ascii Lia.
From Stdlib Require Import Floats.SpecFloat.
From stdpp Require Import base option list gmap.

Local Open Scope Z_scope.
Set Warnings "-register-all".

(** ** Python values *)

Module Py.

(** A Python [str] is a sequence of Unicode code points. *)
Abbreviation pystr := (list N).

(** ASCII literals of the source, as code points. *)
Definition lit (s : string) : pystr :=
  (λ a : ascii, N_of_ascii a) <$> list_ascii_of_string s.
#[global] Arguments lit : simpl never.

(** The exceptions the modelled code can raise. *)
Inductive exn :=
| ClientError        (* aiohttp: the request or the reading of its body failed *)
| ParseError         (* ET.fromstring *)
| JSONDecodeError    (* json.loads *)
| AttributeError     (* .text of None *)
| TypeError
| ValueError
| KeyError
| IndexError
| ZeroDivisionError
| UnicodeEncodeError. (* a text file asked to write a lone surrogate *)

(** A computation that returns or raises. *)
Inductive result (A : Type) :=
| Return (a : A)
| Raise (e : exn).
Arguments Return {A} a.
Arguments Raise {A} e.

#[global] Instance result_ret : MRet result := λ A a, Return a.
#[global] Instance result_bind : MBind result := λ A B f m,
  match m with
  | Return a => f a
  | Raise e => Raise e
  end.
#[global] Instance result_fmap : FMap result := λ A B f m,
  match m with
  | Return a => Return (f a)
  | Raise e => Raise e
  end.

Definition returns {A} (m : result A) : bool :=
  match m with Return _ => true | Raise _ => false end.

(** [for x in xs: ...] with a body that may raise: the first exception
    ends the loop. *)
Fixpoint mapR {A B} (f : A → result B) (xs : list A) : result (list B) :=
  match xs with
  | [] => Return []
  | x :: xs' => y ← f x; ys ← mapR f xs'; Return (y :: ys)
  end.

(** [str.isspace] for one code point (the table of CPython's
    [_PyUnicode_IsWhitespace]). *)
Definition is_space (c : N) : bool :=
  ((9 <=? c) && (c <=? 13) || (28 <=? c) && (c <=? 32)
   || (c =? 133) || (c =? 160) || (c =? 5760)
   || (8192 <=? c) && (c <=? 8202)
   || (c =? 8232) || (c =? 8233) || (c =? 8239) || (c =? 8287)
   || (c =? 12288))%N.

Fixpoint lstrip (s : pystr) : pystr :=
  match s with
  | c :: s' => if is_space c then lstrip s' else s
  | [] => []
  end.

Definition rstrip (s : pystr) : pystr := reverse (lstrip (reverse s)).

(** [s.strip()] *)
Definition strip (s : pystr) : pystr := rstrip (lstrip s).

(** [s.zfill(width)]: zeros go after a leading sign. *)
Definition zfill (width : nat) (s : pystr) : pystr :=
  let pad := replicate (width - length s) 48%N in
  match s with
  | c :: s' => if ((c =? 43) || (c =? 45))%N then c :: pad ++ s' else pad ++ s
  | [] => pad
  end.

(** [needle in s] for two strings: [needle] occurs as a contiguous run. *)
Fixpoint is_prefix (p s : pystr) : bool :=
  match p, s with
  | [], _ => true
  | a :: p', b :: s' => (a =? b)%N && is_prefix p' s'
  | _ :: _, [] => false
  end.

Fixpoint str_contains (needle s : pystr) : bool :=
  is_prefix needle s ||
  match s with
  | [] => false
  | _ :: s' => str_contains needle s'
  end.

(** [int(s)] for a string, as CPython 3.11 reads it: whitespace at the two
    ends, an optional ASCII sign, then decimal digits of any script,
    single underscores allowed between digits, and no more digits than
    the interpreter's limit. *)

(** The whitespace [int] skips: that of [str.isspace] without the four
    separators 28 to 31, which [str.strip] takes off and [int] refuses. *)
Definition is_int_space (c : N) : bool :=
  is_space c && negb ((28 <=? c) && (c <=? 31))%N.

Fixpoint int_lstrip (s : pystr) : pystr :=
  match s with
  | c :: s' => if is_int_space c then int_lstrip s' else s
  | [] => []
  end.

Definition int_strip (s : pystr) : pystr :=
  reverse (int_lstrip (reverse (int_lstrip s))).

(** The decimal digits of Unicode 14 (category [Nd]) come in runs of ten,
    zero to nine: the zero of every run. *)
Definition DIGIT_ZEROS : list N :=
  [48; 1632; 1776; 1984; 2406; 2534; 2662; 2790; 2918; 3046; 3174; 3302;
   3430; 3558; 3664; 3792; 3872; 4160; 4240; 6112; 6160; 6470; 6608; 6784;
   6800; 6992; 7088; 7232; 7248; 42528; 43216; 43264; 43472; 43504; 43600;
   44016; 65296; 66720; 68912; 69734; 69872; 69942; 70096; 70384; 70736;
   70864; 71248; 71360; 71472; 71904; 72016; 72784; 73040; 73120; 92768;
   92864; 93008; 120782; 120792; 120802; 120812; 120822; 123200; 123632;
   125264; 130032]%N.

Definition digit_of (c : N) : option Z :=
  (λ zero, Z.of_N (c - zero))
  <$> List.find (λ zero, (zero <=? c) && (c <? zero + 10))%N DIGIT_ZEROS.

Definition is_digit (c : N) : bool :=
  if digit_of c is Some _ then true else false.

(** [sys.get_int_max_str_digits()], as the interpreter starts. *)
Definition MAX_STR_DIGITS : nat := 4300.

Fixpoint int_digits (acc : Z) (after_digit : bool) (s : pystr) : option Z :=
  match s with
  | [] => if after_digit then Some acc else None
  | c :: s' =>
      match digit_of c with
      | Some d => int_digits (10 * acc + d) true s'
      | None =>
          if (c =? 95)%N && after_digit
          then match s' with
               | c' :: _ =>
                   if digit_of c' is Some _ then int_digits acc false s'
                   else None
               | [] => None
               end
          else None
      end
  end.

Definition int_of_str (s : pystr) : result Z :=
  let body (neg : bool) (ds : pystr) :=
    match int_digits 0 false ds with
    | Some n =>
        if (MAX_STR_DIGITS <? length (List.filter is_digit ds))%nat
        then Raise ValueError
        else Return (if neg then - n else n)
    | None => Raise ValueError
    end in
  match int_strip s with
  | c :: ds =>
      if (c =? 45)%N then body true ds
      else if (c =? 43)%N then body false ds
      else body false (c :: ds)
  | [] => Raise ValueError
  end.

(** [int(x.text)]: [int(None)] is a [TypeError]. *)
Definition py_int (t : option pystr) : result Z :=
  match t with
  | Some s => int_of_str s
  | None => Raise TypeError
  end.

(** [math.ceil(a / b)] on integers. The source divides in floating point;
    the ceiling of the rounded quotient is the exact one as long as
    [|a| < 2^53] and [0 < b < 2^53], far above any record count and page
    size: the quotient is then an integer, which the division gives
    exactly, or at least [1/b] away from the next integer, more than the
    rounding moves it. Beyond that range the code may round to another
    page count or raise [OverflowError], which this function does not
    show; what is proved of its value is stated within the range. *)
Definition ceil_div (a b : Z) : result Z :=
  if b =? 0 then Raise ZeroDivisionError else Return (- ((- a) / b)).

(** [range(lo, hi)] *)
Definition range (lo hi : Z) : list Z := seqZ lo (hi - lo).

End Py.
Export Py.

(** ** The tree of a parsed XML response *)

Module Xml.

(** [xml.etree.ElementTree.Element]: a tag, the text before the first child
    ([None] when there is none), the children in document order. *)
Inductive Element :=
| Elem (tag : pystr) (text : option pystr) (children : list Element).

Definition tag (e : Element) : pystr := let 'Elem t _ _ := e in t.
Definition text (e : Element) : option pystr := let 'Elem _ x _ := e in x.
Definition children (e : Element) : list Element := let 'Elem _ _ cs := e in cs.

(** [e.iter()]: the element and all its descendants, in document order. *)
Fixpoint iter (e : Element) : list Element :=
  match e with
  | Elem _ _ cs => e :: flat_map iter cs
  end.

(** The path [.//name] selects the proper descendants with that tag. *)
Definition descendants (root : Element) : list Element :=
  flat_map iter (children root).

(** [root.findall('.//name')] *)
Definition findall (root : Element) (name : pystr) : list Element :=
  filter (λ e, tag e = name) (descendants root).

(** [root.find('.//name')]: the first match, or [None]. *)
Definition find (root : Element) (name : pystr) : option Element :=
  head (findall root name).

End Xml.
Export Xml.

(** ** The transaction API: one page, then the whole collection *)

Module Collector.

(** What the transaction API answers to one GET. [TransportError]: the
    request raised. [Response status body]: [body] is the tree
    [ET.fromstring] builds from the text, [None] when reading or parsing the
    text raises. *)
Inductive HttpReply :=
| TransportError
| Response (status : Z) (body : option Element).

(** The query of one page request ([params]); the endpoint is fixed. *)
Record Params := mkParams {
  serviceKey : pystr;
  LAWD_CD : pystr;
  DEAL_YMD : pystr;
  numOfRows : Z;
  pageNo : Z
}.

(** The [params] of the first request: page 1. *)
Definition first_params (api_key lawd_cd deal_ymd : pystr) (num_of_rows : Z)
    : Params :=
  mkParams api_key lawd_cd deal_ymd num_of_rows 1.

(** [page_params = params.copy(); page_params["pageNo"] = str(page)] *)
Definition with_pageNo (params : Params) (page : Z) : Params :=
  mkParams (serviceKey params) (LAWD_CD params) (DEAL_YMD params)
           (numOfRows params) page.

(** The lines the collector prints. *)
Inductive event :=
| PageStatusError (page : Z) (status : Z)
| PageApiError (page : Z) (result_msg : option pystr)
| NoTotalCount
| Collected (lawd_cd deal_ymd : pystr) (n : nat).

(** A transaction record: field name to text. *)
Abbreviation record := (gmap pystr pystr).

(** [item_dict[child.tag] = child.text.strip() if child.text else ""],
    over the children of one item; a later child with the same tag
    overwrites. *)
Definition field_text (child : Element) : pystr :=
  match text child with
  | Some t => if bool_decide (t = []) then [] else strip t
  | None => []
  end.

Definition item_to_dict (item : Element) : record :=
  foldl (λ item_dict child, <[tag child := field_text child]> item_dict)
        ∅ (children item).

Definition parse_items (root : Element) : list record :=
  item_to_dict <$> findall root (lit "item").

(** [ET.fromstring(await response.text())] *)
Definition fromstring (body : option Element) : result Element :=
  match body with
  | Some root => Return root
  | None => Raise ParseError
  end.

(** [result_code is not None and result_code.text != '000'] *)
Definition api_error (root : Element) : bool :=
  match find root (lit "resultCode") with
  | Some result_code =>
      negb (bool_decide (text result_code = Some (lit "000")))
  | None => false
  end.

(** The [params] of the tasks: pages 2 to [total_pages]. *)
Definition later_pages (params : Params) (total_pages : Z) : list Params :=
  with_pageNo params <$> range 2 (total_pages + 1).

Section WithSession.

(** The peer: the reply to each page request. *)
Variable session : Params → HttpReply.

(** [fetch_page], the body under the semaphore: the lines printed and the
    records returned. *)
Definition fetch_page (params : Params) : result (list event * list record) :=
  match session params with
  | TransportError => Raise ClientError
  | Response status body =>
      if negb (status =? 200)
      then Return ([PageStatusError (pageNo params) status], [])
      else
        root ← fromstring body;
        if api_error root
        then
          match find root (lit "resultMsg") with
          | Some m => Return ([PageApiError (pageNo params) (text m)], [])
          | None => Raise AttributeError
          end
        else Return ([], parse_items root)
  end.

(** The records a page adds to the collection, and the lines it prints. *)
Definition page_items (params : Params) : list record :=
  match fetch_page params with
  | Return (_, page_data) => page_data
  | Raise _ => []
  end.

Definition page_lines (params : Params) : list event :=
  match fetch_page params with
  | Return (lines, _) => lines
  | Raise _ => []
  end.

(** The failures [fetch_page] answers with an empty page: a status other
    than 200, or a result code other than [000] next to its message. *)
Definition soft_failure (reply : HttpReply) : bool :=
  match reply with
  | TransportError => false
  | Response status body =>
      negb (status =? 200) ||
      match body with
      | Some root =>
          api_error root && bool_decide (is_Some (find root (lit "resultMsg")))
      | None => false
      end
  end.

(** What one call of the collector leaves behind when it returns. *)
Record collected := mkCollected {
  items : list record;
  requests : list Params;
  log : list event
}.

(** [fetch_all_apt_trade_data_async]. [asyncio.gather] hands back the page
    results in the order of the tasks, and raises when a task raises. The
    lines the pages print are listed in page order here, and of several
    exceptions the one of the lowest page is kept; the event loop prints
    the lines as the pages complete and raises the exception that comes
    first. [Gate] below has the event loop itself. *)
Definition fetch_all_apt_trade_data_async
    (api_key lawd_cd deal_ymd : pystr) (num_of_rows : Z) : result collected :=
  let params := first_params api_key lawd_cd deal_ymd num_of_rows in
  match session params with
  | TransportError => Raise ClientError
  | Response _ body =>
      root ← fromstring body;
      match find root (lit "totalCount") with
      | None => Return (mkCollected [] [params] [NoTotalCount])
      | Some total_count_element =>
          total_count ← py_int (text total_count_element);
          let first_page_items := parse_items root in
          total_pages ← ceil_div total_count num_of_rows;
          let tasks := later_pages params total_pages in
          results ← mapR fetch_page tasks;
          let all_items := first_page_items ++ concat (snd <$> results) in
          Return (mkCollected all_items (params :: tasks)
                    (concat (fst <$> results)
                     ++ [Collected lawd_cd deal_ymd (length all_items)]))
      end
  end.

End WithSession.

End Collector.

(** ** JSON values in memory and on file *)

Module Json.

(** The values [json.loads] builds, and the tuples the resolver makes of
    them. A dict is kept as its items, in insertion order. *)
Inductive pyval :=
| PNone
| PBool (b : bool)
| PInt (z : Z)
| PFloat (f : spec_float)
| PStr (s : pystr)
| PList (l : list pyval)
| PTuple (l : list pyval)
| PDict (d : list (pystr * pyval)).

(** A JSON document: what a file or a response body holds. *)
Inductive json :=
| JNull
| JBool (b : bool)
| JInt (z : Z)
| JFloat (f : spec_float)
| JString (s : pystr)
| JArray (l : list json)
| JObject (d : list (pystr * json)).

(** [d[key] = v] on the items of a dict: a key already there keeps its
    place. *)
Fixpoint setitem (key : pystr) (v : pyval) (d : list (pystr * pyval))
    : list (pystr * pyval) :=
  match d with
  | [] => [(key, v)]
  | (k, x) :: d' =>
      if bool_decide (k = key) then (key, v) :: d'
      else (k, x) :: setitem key v d'
  end.

(** The dict built from the members of an object, in their order. *)
Definition dict_of_members (members : list (pystr * pyval))
    : list (pystr * pyval) :=
  foldl (λ d kv, setitem kv.1 kv.2 d) [] members.

(** [json.loads] / [json.load], from the parsed document on: arrays become
    lists, objects dicts. *)
Fixpoint decode (j : json) : pyval :=
  match j with
  | JNull => PNone
  | JBool b => PBool b
  | JInt z => PInt z
  | JFloat f => PFloat f
  | JString s => PStr s
  | JArray l => PList (map decode l)
  | JObject d => PDict (dict_of_members (map (λ kv, (kv.1, decode kv.2)) d))
  end.

(** The items of every dict inside a value have distinct keys, as they do
    in memory. *)
Fixpoint distinct_keys (v : pyval) : bool :=
  match v with
  | PList l | PTuple l => forallb distinct_keys l
  | PDict d =>
      bool_decide (NoDup d.*1) && forallb (λ kv, distinct_keys kv.2) d
  | _ => true
  end.

(** [json.dump]: lists and tuples alike are written as arrays. *)
Fixpoint encode (v : pyval) : json :=
  match v with
  | PNone => JNull
  | PBool b => JBool b
  | PInt z => JInt z
  | PFloat f => JFloat f
  | PStr s => JString s
  | PList l => JArray (map encode l)
  | PTuple l => JArray (map encode l)
  | PDict d => JObject (map (λ kv, (kv.1, encode kv.2)) d)
  end.

(** [bool(v)] *)
Definition truthy (v : pyval) : bool :=
  match v with
  | PNone => false
  | PBool b => b
  | PInt z => negb (z =? 0)
  | PFloat f => match f with S754_zero _ => false | _ => true end
  | PStr s => negb (bool_decide (s = []))
  | PList l | PTuple l => match l with [] => false | _ => true end
  | PDict d => match d with [] => false | _ => true end
  end.

(** [len(v)] *)
Definition len (v : pyval) : result nat :=
  match v with
  | PStr s => Return (length s)
  | PList l | PTuple l => Return (length l)
  | PDict d => Return (length d)
  | _ => Raise TypeError
  end.

(** [d.get(key)] on the items of a dict. *)
Fixpoint lookup_item (key : pystr) (d : list (pystr * pyval)) : option pyval :=
  match d with
  | [] => None
  | (k, v) :: d' => if bool_decide (k = key) then Some v else lookup_item key d'
  end.

(** [v[key]] for a string key. *)
Definition getitem (v : pyval) (key : pystr) : result pyval :=
  match v with
  | PDict d =>
      match lookup_item key d with
      | Some x => Return x
      | None => Raise KeyError
      end
  | _ => Raise TypeError
  end.

(** [v[0]] *)
Definition first (v : pyval) : result pyval :=
  match v with
  | PList l | PTuple l =>
      match l with x :: _ => Return x | [] => Raise IndexError end
  | PStr s =>
      match s with c :: _ => Return (PStr [c]) | [] => Raise IndexError end
  | PDict _ => Raise KeyError
  | _ => Raise TypeError
  end.

(** [for x in v]: the elements of a list, the characters of a string, the
    keys of a dict. *)
Definition elements (v : pyval) : result (list pyval) :=
  match v with
  | PList l | PTuple l => Return l
  | PStr s => Return ((λ c, PStr [c]) <$> s)
  | PDict d => Return ((λ kv, PStr kv.1) <$> d)
  | _ => Raise TypeError
  end.

(** [needle == v] for a string [needle]. *)
Definition str_eq (needle : pystr) (v : pyval) : bool :=
  match v with
  | PStr s => bool_decide (s = needle)
  | _ => false
  end.

(** [needle in v] for a string [needle]. *)
Definition contains (needle : pystr) (v : pyval) : result bool :=
  match v with
  | PStr s => Return (str_contains needle s)
  | PList l | PTuple l => Return (existsb (str_eq needle) l)
  | PDict d => Return (bool_decide (is_Some (lookup_item needle d)))
  | _ => Raise TypeError
  end.

(** [a, b, c = v] *)
Definition unpack3 (v : pyval) : result (pyval * pyval * pyval) :=
  xs ← elements v;
  match xs with
  | [a; b; c] => Return (a, b, c)
  | _ => Raise ValueError
  end.

(** [[x for x in xs if keep(x)]] with a test that may raise. *)
Fixpoint filterR {A} (keep : A → result bool) (xs : list A) : result (list A) :=
  match xs with
  | [] => Return []
  | x :: xs' =>
      b ← keep x; ys ← filterR keep xs';
      Return (if (b : bool) then x :: ys else ys)
  end.

(** Induction over values and documents, through their lists. *)
Section PyvalInduction.

Variable P : pyval → Prop.
Hypothesis HNone : P PNone.
Hypothesis HBool : ∀ b, P (PBool b).
Hypothesis HInt : ∀ z, P (PInt z).
Hypothesis HFloat : ∀ f, P (PFloat f).
Hypothesis HStr : ∀ s, P (PStr s).
Hypothesis HList : ∀ l, Forall P l → P (PList l).
Hypothesis HTuple : ∀ l, Forall P l → P (PTuple l).
Hypothesis HDict : ∀ d, Forall (λ kv, P kv.2) d → P (PDict d).

Fixpoint pyval_induction (v : pyval) : P v :=
  let all :=
    fix all (l : list pyval) : Forall P l :=
      match l with
      | [] => List.Forall_nil P
      | x :: l' => List.Forall_cons P x l' (pyval_induction x) (all l')
      end in
  let all_items :=
    fix all_items (d : list (pystr * pyval)) : Forall (λ kv, P kv.2) d :=
      match d with
      | [] => List.Forall_nil _
      | kv :: d' =>
          List.Forall_cons (λ kv, P kv.2) kv d'
            (pyval_induction kv.2) (all_items d')
      end in
  match v with
  | PNone => HNone
  | PBool b => HBool b
  | PInt z => HInt z
  | PFloat f => HFloat f
  | PStr s => HStr s
  | PList l => HList l (all l)
  | PTuple l => HTuple l (all l)
  | PDict d => HDict d (all_items d)
  end.

End PyvalInduction.

Section JsonInduction.

Variable P : json → Prop.
Hypothesis HNull : P JNull.
Hypothesis HBool : ∀ b, P (JBool b).
Hypothesis HInt : ∀ z, P (JInt z).
Hypothesis HFloat : ∀ f, P (JFloat f).
Hypothesis HString : ∀ s, P (JString s).
Hypothesis HArray : ∀ l, Forall P l → P (JArray l).
Hypothesis HObject : ∀ d, Forall (λ kv, P kv.2) d → P (JObject d).

Fixpoint json_induction (j : json) : P j :=
  let all :=
    fix all (l : list json) : Forall P l :=
      match l with
      | [] => List.Forall_nil P
      | x :: l' => List.Forall_cons P x l' (json_induction x) (all l')
      end in
  let all_members :=
    fix all_members (d : list (pystr * json)) : Forall (λ kv, P kv.2) d :=
      match d with
      | [] => List.Forall_nil _
      | kv :: d' =>
          List.Forall_cons (λ kv, P kv.2) kv d'
            (json_induction kv.2) (all_members d')
      end in
  match j with
  | JNull => HNull
  | JBool b => HBool b
  | JInt z => HInt z
  | JFloat f => HFloat f
  | JString s => HString s
  | JArray l => HArray l (all l)
  | JObject d => HObject d (all_members d)
  end.

End JsonInduction.

End Json.
Export Json.

(** ** The geocoder and the resolution cache *)

Module Resolver.

(** The markers of the two preferred categories. *)
Definition APT : pystr := [50500; 54028; 53944]%N.               (* 아파트 *)
Definition RESIDENTIAL : pystr := [51452; 44144; 49884; 49444]%N. (* 주거시설 *)

(** What one POST to the geocoder comes to. [PostFailed e]: the request
    raised and [fetch_post] returned the text [ERROR:e]. [PostText j]:
    the body was read; [j] is the document in it, [None] when the text is
    not JSON. *)
Inductive PostReply :=
| PostFailed (e : pystr)
| PostText (j : option json).

(** [json.loads(await fetch_post(...))]: no JSON text starts with [ERROR:],
    so a failed request ends in the decoder's exception. *)
Definition loads_fetch_post (reply : PostReply) : result pyval :=
  match reply with
  | PostFailed _ => Raise JSONDecodeError
  | PostText None => Raise JSONDecodeError
  | PostText (Some j) => Return (decode j)
  end.

(** The three values of a result, as the tuple the source builds. *)
Definition triple (place_name lat lng : pyval) : pyval :=
  PTuple [place_name; lat; lng].

Definition in_category (marker : pystr) (x : pyval) : result bool :=
  category_name ← getitem x (lit "category_name");
  contains marker category_name.

(** The end of the [try]: the result is made of the first of the
    preferred [documents], or else of the first of all documents. *)
Definition pick (all_documents : pyval) (documents : list pyval)
    : result pyval :=
  if (0 <? length documents)%nat
  then
    doc ← first (PList documents);
    has_name ← contains (lit "place_name") doc;
    place_name ←
      (if (has_name : bool) then getitem doc (lit "place_name")
       else Return PNone);
    lat ← getitem doc (lit "y");
    lng ← getitem doc (lit "x");
    Return (triple place_name lat lng)
  else
    doc ← first all_documents;
    lat ← getitem doc (lit "y");
    lng ← getitem doc (lit "x");
    Return (triple PNone lat lng).

(** The body of the [try] of [get_lat_lon], after [json.loads]. *)
Definition select (data : pyval) : result pyval :=
  all_documents ← getitem data (lit "documents");
  nonempty ←
    (if truthy all_documents
     then n ← len all_documents; Return (0 <? n)%nat
     else Return false);
  if (nonempty : bool)
  then
    xs ← elements all_documents;
    documents ← filterR (in_category APT) xs;
    documents ←
      (if (length documents =? 0)%nat
       then filterR (in_category RESIDENTIAL) xs
       else Return documents);
    pick all_documents documents
  else Return (triple PNone PNone PNone).

(** A candidate as the geocoder lists it: an object with a category label
    and the two coordinate fields. *)
Definition is_candidate (doc : pyval) : bool :=
  match doc with
  | PDict d =>
      match lookup_item (lit "category_name") d with
      | Some (PStr _) =>
          bool_decide (is_Some (lookup_item (lit "y") d))
          && bool_decide (is_Some (lookup_item (lit "x") d))
      | _ => false
      end
  | _ => false
  end.

(** The value of a field of a candidate, [None] for a field it lacks. *)
Definition field_of (doc : pyval) (key : pystr) : pyval :=
  match getitem doc key with
  | Return v => v
  | Raise _ => PNone
  end.

(** The candidate's category label contains the marker. *)
Definition labelled (marker : pystr) (doc : pyval) : bool :=
  match field_of doc (lit "category_name") with
  | PStr category_name => str_contains marker category_name
  | _ => false
  end.

(** The result made of a candidate: its place name, its [y] as latitude,
    its [x] as longitude. *)
Definition located (doc : pyval) : pyval :=
  triple (field_of doc (lit "place_name"))
         (field_of doc (lit "y")) (field_of doc (lit "x")).

(** The selection in the words of the specification: the first candidate
    of the first tier that has one; in the last tier the place name stays
    unset; no candidate, no result. *)
Definition tiered_choice (docs : list pyval) : pyval :=
  match filter (λ doc, labelled APT doc) docs with
  | doc :: _ => located doc
  | [] =>
      match filter (λ doc, labelled RESIDENTIAL doc) docs with
      | doc :: _ => located doc
      | [] =>
          match docs with
          | doc :: _ =>
              triple PNone (field_of doc (lit "y")) (field_of doc (lit "x"))
          | [] => triple PNone PNone PNone
          end
      end
  end.

Definition is_none (v : pyval) : bool :=
  match v with PNone => true | _ => false end.

(** A result with both coordinates or with neither. *)
Definition paired (v : pyval) : bool :=
  match v with
  | PTuple [_; lat; lng] | PList [_; lat; lng] =>
      Bool.eqb (is_none lat) (is_none lng)
  | _ => false
  end.

(** A document whose [y] and [x], when it has both, are both null or both
    not. *)
Definition coordinates_paired (doc : pyval) : bool :=
  match getitem doc (lit "y"), getitem doc (lit "x") with
  | Return y, Return x => Bool.eqb (is_none y) (is_none x)
  | _, _ => true
  end.

(** A reply all of whose documents are such. *)
Definition reply_paired (reply : PostReply) : Prop :=
  ∀ data all_documents xs,
    loads_fetch_post reply = Return data →
    getitem data (lit "documents") = Return all_documents →
    elements all_documents = Return xs →
    forallb coordinates_paired xs = true.

(** The lines the resolver prints. *)
Inductive event :=
| KakaoError (e : exn).

(** The state one run threads through the lookups: the global
    [ADDRESS_CACHE], the queries posted to the geocoder so far, the lines
    printed. *)
Record Run := mkRun {
  ADDRESS_CACHE : gmap pystr pyval;
  posted : list pystr;
  printed : list event
}.

(** The geocoder: its reply to a query, given the queries posted before. *)
Abbreviation Geocoder := (list pystr → pystr → PostReply).

(** The whole [try]: decode the answer, then select. *)
Definition attempt (reply : PostReply) : result pyval :=
  data ← loads_fetch_post reply;
  select data.

(** [get_lat_lon]: a cached address is answered from the cache; any other
    costs one request, and its result is stored unless the [try] raised. *)
Definition get_lat_lon (geocoder : Geocoder) (address : pystr) (run : Run)
    : pyval * Run :=
  match ADDRESS_CACHE run !! address with
  | Some cached => (cached, run)
  | None =>
      let reply := geocoder (posted run) address in
      let posted' := posted run ++ [address] in
      match attempt reply with
      | Return result_tuple =>
          (result_tuple,
           mkRun (<[address := result_tuple]> (ADDRESS_CACHE run))
                 posted' (printed run))
      | Raise e =>
          (triple PNone PNone PNone,
           mkRun (ADDRESS_CACHE run) posted' (printed run ++ [KakaoError e]))
      end
  end.

End Resolver.

(** ** The cache file *)

Module Cache.

(** The cache file as [main] finds it. *)
Inductive CacheFile :=
| Missing                    (* os.path.exists is false *)
| Unreadable                 (* open or json.load raises *)
| Holds (content : json).

(** [json.dump(ADDRESS_CACHE, f)]: an object with one member per address. *)
Definition dump (cache : gmap pystr pyval) : json :=
  JObject (map_to_list (encode <$> cache)).

(** A code point the UTF-8 encoder refuses: a surrogate. [json.loads]
    makes one of an escape such as [\ud83d] that has no partner, in a
    reply of the geocoder as well as in the cache file. *)
Definition is_surrogate (c : N) : bool := ((55296 <=? c) && (c <=? 57343))%N.

Definition str_writable (s : pystr) : bool :=
  forallb (λ c, negb (is_surrogate c)) s.

(** A value [json.dump(..., ensure_ascii=False)] can write into a file
    opened with [encoding='utf-8']: no string in it, key or value, holds
    a surrogate. *)
Fixpoint writable (v : pyval) : bool :=
  match v with
  | PStr s => str_writable s
  | PList l | PTuple l => forallb writable l
  | PDict d => forallb (λ kv, str_writable kv.1 && writable kv.2) d
  | _ => true
  end.

Definition cache_writable (cache : gmap pystr pyval) : bool :=
  forallb (λ kv, str_writable kv.1 && writable kv.2) (map_to_list cache).

(** The dict [json.load] makes of an object; a repeated name keeps its last
    value. *)
Definition dict_of (members : list (pystr * json)) : gmap pystr pyval :=
  list_to_map (reverse ((λ kv, (kv.1, decode kv.2)) <$> members)).

(** The start of [main]: the cache the run begins with. A file that holds
    [null], a number or a boolean is read, but [len] of the value raises
    inside the [try], and the cache is reset to the empty dict like for a
    file that cannot be read. A file that holds an array or a string
    makes [ADDRESS_CACHE] a list or a string for the rest of the run;
    the model stops there ([None]). *)
Definition load (file : CacheFile) : option (gmap pystr pyval) :=
  match file with
  | Missing => Some ∅
  | Unreadable => Some ∅
  | Holds (JObject members) => Some (dict_of members)
  | Holds (JNull | JBool _ | JInt _ | JFloat _) => Some ∅
  | Holds (JString _ | JArray _) => None
  end.

(** The end of [main]: the file the write of the cache leaves, and how
    the write ends. The file is opened for writing, which empties it,
    and [json.dump] writes piece by piece: at a string with a surrogate
    the encoder of the file raises [UnicodeEncodeError], outside any
    [try], and what is left is the beginning of an object, which no
    later [json.load] can read. *)
Definition save (cache : gmap pystr pyval) : CacheFile * result unit :=
  if cache_writable cache
  then (Holds (dump cache), Return ())
  else (Unreadable, Raise UnicodeEncodeError).

(** A value with every tuple turned into a list: what comes back from the
    file. *)
Fixpoint listify (v : pyval) : pyval :=
  match v with
  | PList l => PList (map listify l)
  | PTuple l => PList (map listify l)
  | PDict d => PDict (map (λ kv, (kv.1, listify kv.2)) d)
  | _ => v
  end.

End Cache.

(** ** The admission gate of one collection *)

Module Gate.
Import Collector.

(** [asyncio.Semaphore(5)] *)
Definition CEILING : nat := 5.

(** Where the task of one page stands: before or inside the wait of
    [async with semaphore], holding a slot with its GET out, or left
    [fetch_page] with a result or an exception. *)
Inductive task :=
| Suspended
| InFlight
| Done (outcome : result (list event * list record)).

(** The event loop during [asyncio.gather]: the counter of the semaphore
    and the tasks, in the order they were created. *)
Record loop := mkLoop {
  value : nat;
  tasks : list task
}.

(** What the event loop can do next: let task [i] through the gate, or run
    task [i] to the end of [fetch_page], which leaves the gate. *)
Inductive move :=
| Admit (i : nat)
| Complete (i : nat).

Definition is_in_flight (t : task) : bool :=
  match t with InFlight => true | _ => false end.

Definition is_started (t : task) : bool :=
  match t with Suspended => false | _ => true end.

Definition is_admit (m : move) : bool :=
  match m with Admit _ => true | Complete _ => false end.

(** The tasks of one kind, and what a task adds to their number. *)
Definition count (kind : task → bool) (ts : list task) : nat :=
  length (filter (λ t, kind t) ts).

Definition weight (kind : task → bool) (t : task) : nat :=
  if kind t then 1 else 0.

(** The page fetches in flight. *)
Definition in_flight (s : loop) : nat := count is_in_flight (tasks s).

(** The tasks that went through the gate, and the times a schedule lets
    one through: each is one GET. *)
Definition started (s : loop) : nat := count is_started (tasks s).

Definition admissions (schedule : list move) : nat :=
  length (filter (λ m, is_admit m) schedule).

Section WithSession.

Variable session : Params → HttpReply.
Variable pages : list Params.

(** One move. [acquire] goes through only while the counter is positive;
    leaving the [async with] block, by return or by exception, gives the
    slot back. *)
Definition step (m : move) (s : loop) : option loop :=
  match m with
  | Admit i =>
      match tasks s !! i with
      | Some Suspended =>
          if (0 <? value s)%nat
          then Some (mkLoop (value s - 1) (<[i := InFlight]> (tasks s)))
          else None
      | _ => None
      end
  | Complete i =>
      match tasks s !! i, pages !! i with
      | Some InFlight, Some params =>
          Some (mkLoop (S (value s))
                       (<[i := Done (fetch_page session params)]> (tasks s)))
      | _, _ => None
      end
  end.

(** A schedule, move after move. *)
Fixpoint run (schedule : list move) (s : loop) : option loop :=
  match schedule with
  | [] => Some s
  | m :: schedule' =>
      match step m s with
      | Some s' => run schedule' s'
      | None => None
      end
  end.

(** The schedule that takes the pages one at a time. *)
Definition one_by_one (from n : nat) : list move :=
  flat_map (λ i, [Admit i; Complete i]) (seq from n).

(** The loop as [gather] starts: every page has its task, none is through
    the gate. *)
Definition start : loop := mkLoop CEILING (replicate (length pages) Suspended).

(** What every state of the loop satisfies: the slots handed out and the
    slots left make up the ceiling, every page has its task, and a task
    that is done holds what [fetch_page] gives for its page. *)
Definition consistent (s : loop) : Prop :=
  (in_flight s + value s = CEILING)%nat
  ∧ Forall2 (λ t params, ∀ r, t = Done r → r = fetch_page session params)
            (tasks s) pages.

(** What [gather] hands back once every task is done: the results in task
    order, or an exception if a task raised (the event loop raises it as
    soon as the task does; of several, the one of the lowest page is kept
    here). *)
Definition outcome_of (t : task)
    : option (result (list event * list record)) :=
  match t with
  | Done r => Some r
  | _ => None
  end.

Definition gathered (s : loop)
    : option (result (list (list event * list record))) :=
  outcomes ← mapM outcome_of (tasks s);
  Some (mapR id outcomes).

End WithSession.

End Gate.

(** ** The loop of [main] over the fetched records *)

Module Main.
Import Collector Resolver.

(** An entry of [LAWD_CD]. *)
Record Region := mkRegion {
  code : pystr;
  kor_name : pystr
}.

(** One element of the [data] written to the output file. *)
Record Entry := mkEntry {
  e_address : pystr;
  e_place_name : pyval;
  e_aptNm : pystr;
  e_lat : pyval;
  e_lng : pyval;
  e_date : pystr;
  e_sggCd : pystr;
  e_excluUseAr : pystr;
  e_dealingGbn : pystr;
  e_floor : pystr;
  e_dealAmount : pystr
}.

(** What the loop carries along. *)
Record State := mkState {
  run : Run;
  data : list Entry;
  api_call_count : nat;
  cache_hit_count : nat
}.

(** [x[name]] *)
Definition field (x : record) (name : pystr) : result pystr :=
  match x !! name with
  | Some v => Return v
  | None => Raise KeyError
  end.

(** The address of a record: region name, dong and lot number. *)
Definition address_of (sggCd : Region) (x : record) : result pystr :=
  umdNm ← field x (lit "umdNm");
  jibun ← field x (lit "jibun");
  Return (kor_name sggCd ++ lit " " ++ umdNm ++ lit " " ++ jibun).

(** The dict appended to [data]. *)
Definition entry_of (sggCd : Region) (x : record) (place_name lat lng : pyval)
    : result Entry :=
  address ← field x (lit "ADDRESS");
  shown ←
    (if place_name is PNone then PStr <$> field x (lit "aptNm")
     else Return place_name);
  aptNm ← field x (lit "aptNm");
  dealYear ← field x (lit "dealYear");
  dealMonth ← field x (lit "dealMonth");
  dealDay ← field x (lit "dealDay");
  excluUseAr ← field x (lit "excluUseAr");
  dealingGbn ← field x (lit "dealingGbn");
  floor ← field x (lit "floor");
  dealAmount ← field x (lit "dealAmount");
  Return (mkEntry address shown aptNm lat lng
            (dealYear ++ zfill 2 dealMonth ++ zfill 2 dealDay)
            (code sggCd) excluUseAr dealingGbn floor dealAmount).

(** The fields of a record the entry is made of. *)
Definition entry_fields : list pystr :=
  [lit "aptNm"; lit "dealYear"; lit "dealMonth"; lit "dealDay";
   lit "excluUseAr"; lit "dealingGbn"; lit "floor"; lit "dealAmount"].

(** A coordinate as the resolver's type has it: a string or null. *)
Definition str_or_none (v : pyval) : bool :=
  match v with
  | PNone | PStr _ => true
  | _ => false
  end.

(** Such a coordinate is there: not null and not the empty string. *)
Definition present (v : pyval) : bool :=
  match v with
  | PNone => false
  | PStr s => negb (bool_decide (s = []))
  | _ => true
  end.

(** The body of [for x in result]. *)
Definition process_record (geocoder : Geocoder) (sggCd : Region)
    (st : State) (x : record) : result State :=
  address ← address_of sggCd x;
  let x := <[lit "ADDRESS" := address]> x in
  let hit := bool_decide (is_Some (ADDRESS_CACHE (run st) !! address)) in
  let hits := if hit then S (cache_hit_count st) else cache_hit_count st in
  let calls := if hit then api_call_count st else S (api_call_count st) in
  let '(resolved, run') := get_lat_lon geocoder address (run st) in
  '(place_name, lat, lng) ← unpack3 resolved;
  if truthy lat && truthy lng
  then
    entry ← entry_of sggCd x place_name lat lng;
    Return (mkState run' (data st ++ [entry]) calls hits)
  else Return (mkState run' (data st) calls hits).

(** [for x in result: ...] *)
Fixpoint process_records (geocoder : Geocoder) (sggCd : Region)
    (st : State) (xs : list record) : result State :=
  match xs with
  | [] => Return st
  | x :: xs' =>
      st' ← process_record geocoder sggCd st x;
      process_records geocoder sggCd st' xs'
  end.

(** One round of [for sggCd in LAWD_CD]: the three months of a region are
    collected one after the other, then their records resolved. *)
Definition process_region (session : Params → HttpReply) (geocoder : Geocoder)
    (api_key : pystr) (months : pystr * pystr * pystr)
    (st : State) (sggCd : Region) : result State :=
  let '(today_month, before_1_month, before_2_month) := months in
  let collect deal_ymd :=
    items <$> fetch_all_apt_trade_data_async session api_key (code sggCd)
                deal_ymd 10 in
  r0 ← collect today_month;
  r1 ← collect before_1_month;
  r2 ← collect before_2_month;
  process_records geocoder sggCd st (r0 ++ r1 ++ r2).

End Main.

(** ** Sample peers *)

Module Samples.
Import Collector.
Local Open Scope string_scope.

Definition el (name : string) (content : option string) (cs : list Element)
    : Element :=
  Elem (lit name) (lit <$> content) cs.

Definition item (name : string) : Element :=
  el "item" None [el "aptNm" (Some name) []; el "floor" (Some " 3 ") []].

(** A page as the transaction API sends it. *)
Definition page (code : string) (total : option string) (names : list string)
    : Element :=
  el "response" None
    [el "header" None
       [el "resultCode" (Some code) []; el "resultMsg" (Some "MSG") []];
     el "body" None
       (el "items" None (item <$> names)
        :: match total with
           | Some n => [el "totalCount" (Some n) []]
           | None => []
           end)].

Definition count (n : string) : Element := el "totalCount" (Some n) [].

Definition first_of_25 : Element := page "000" (Some "25") ["A"].
Definition zero_records : Element := page "000" (Some "0") [].
Definition zero_with_item : Element := page "000" (Some "0") ["A"].
Definition no_count : Element := page "003" None [].

Definition ok (names : list string) : HttpReply :=
  Response 200 (Some (page "000" (Some "25") names)).

(** Twenty-five records in pages of ten; every page answers. *)
Definition healthy (params : Params) : HttpReply :=
  if (pageNo params =? 1)%Z then Response 200 (Some first_of_25)
  else if (pageNo params =? 2)%Z then ok ["B"; "C"]
  else ok ["D"].

(** Page 2 answers 503, page 3 an error envelope. *)
Definition degraded (params : Params) : HttpReply :=
  if (pageNo params =? 1)%Z then Response 200 (Some first_of_25)
  else if (pageNo params =? 2)%Z then Response 503 None
  else Response 200 (Some (page "099" None [])).

(** The request of page 2 fails on the wire. *)
Definition broken (params : Params) : HttpReply :=
  if (pageNo params =? 1)%Z then Response 200 (Some first_of_25)
  else if (pageNo params =? 2)%Z then TransportError
  else ok ["D"].

(** Page 1 says zero records and yet carries one. *)
Definition inconsistent (params : Params) : HttpReply :=
  Response 200 (Some zero_with_item).

(** No record, said with a count of zero, and said with no count at all. *)
Definition empty (params : Params) : HttpReply :=
  Response 200 (Some zero_records).
Definition unknown (params : Params) : HttpReply :=
  Response 200 (Some no_count).

(** Twelve pages wait at the gate; the loop lets the first five through. *)
Definition twelve_pages : list Params :=
  later_pages (mkParams (lit "key") (lit "11110") (lit "202611") 10 1) 13.

Definition five_admissions : list Gate.move :=
  [Gate.Admit 0; Gate.Admit 1; Gate.Admit 2; Gate.Admit 3; Gate.Admit 4].

Definition gate_full : Gate.loop :=
  Gate.mkLoop 0 (replicate 5 Gate.InFlight ++ replicate 7 Gate.Suspended).

(** Geocoder replies. *)
Definition candidate (place category : pystr) (y x : json) : json :=
  JObject [(lit "place_name", JString place);
           (lit "category_name", JString category);
           (lit "x", x); (lit "y", y)].

Definition reply_with (docs : list json) : Resolver.PostReply :=
  Resolver.PostText
    (Some (JObject [(lit "documents", JArray docs); (lit "meta", JNull)])).

Definition shop_flat_house : list json :=
  [candidate (lit "Shop") (lit "retail")
     (JString (lit "37.1")) (JString (lit "127.1"));
   candidate (lit "Flat") (lit "estate > " ++ Resolver.APT)
     (JString (lit "37.2")) (JString (lit "127.2"));
   candidate (lit "House") Resolver.RESIDENTIAL
     (JString (lit "37.3")) (JString (lit "127.3"))].

(** A geocoder that knows three places, one that knows none, one out of
    reach, and one whose only candidate has a longitude and no latitude. *)
Definition knows_three : Resolver.Geocoder := λ _ _, reply_with shop_flat_house.
Definition unreachable : Resolver.Geocoder :=
  λ _ _, Resolver.PostFailed (lit "timeout").
Definition half_located : Resolver.Geocoder :=
  λ _ _, reply_with
           [JObject [(lit "category_name", JString Resolver.APT);
                     (lit "y", JNull); (lit "x", JString (lit "127.0"))]].

Definition ADDRESS : pystr := lit "Seoul Jongno-gu Sajik-dong 9".
Definition fresh_run : Resolver.Run := Resolver.mkRun ∅ [] [].

(** A cache with one entry of this run and one read from the file. *)
Definition two_entries : gmap pystr pyval :=
  <[lit "first" := Resolver.triple (PStr (lit "Flat")) (PStr (lit "37.2"))
                     (PStr (lit "127.2"))]>
    (<[lit "second" := PList [PNone; PNone; PNone]]> ∅).

(** A geocoder whose candidate has half of an emoji in its name, as the
    escape [\ud83d] alone gives it, and the cache after one lookup
    there. *)
Definition lone_surrogate : Resolver.Geocoder :=
  λ _ _, reply_with
           [candidate [70; 55357]%N Resolver.APT
              (JString (lit "37.2")) (JString (lit "127.2"))].

Definition surrogate_cache : gmap pystr pyval :=
  {[ADDRESS := Resolver.triple (PStr [70; 55357]%N) (PStr (lit "37.2"))
                 (PStr (lit "127.2"))]}.

(** A record of Jongno-gu, and the state [main] starts the loop in. *)
Definition JONGNO_GU : Main.Region :=
  Main.mkRegion (lit "11110") (lit "Seoul Jongno-gu").

Definition trade : Collector.record :=
  list_to_map
    [(lit "umdNm", lit "Sajik-dong"); (lit "jibun", lit "9");
     (lit "aptNm", lit "Gwanghwamun"); (lit "dealYear", lit "2026");
     (lit "dealMonth", lit "1"); (lit "dealDay", lit "15");
     (lit "excluUseAr", lit "84.9"); (lit "dealingGbn", lit "direct");
     (lit "floor", lit "3"); (lit "dealAmount", lit "150,000")].

Definition first_state : Main.State := Main.mkState fresh_run [] 0 0.

Definition KEY : pystr := lit "key".
Definition JONGNO : pystr := lit "11110".
Definition MONTH : pystr := lit "202611".

End Samples.

(** ** The POST helper *)

Module Post.

(** The keyword arguments [fetch_post] hands to [session.post], as the
    items of the dict [kwargs]. An argument left out of the call is
    [None]. *)
Definition kwargs_of (data json_body headers : pyval)
    : list (pystr * pyval) :=
  let kwargs := [(lit "timeout", PInt 10)] in
  let kwargs :=
    if truthy headers then setitem (lit "headers") headers kwargs
    else kwargs in
  if negb (Resolver.is_none json_body)
  then setitem (lit "json") json_body kwargs
  else if negb (Resolver.is_none data)
       then setitem (lit "data") data kwargs
       else kwargs.

(** The call of [get_lat_lon]: the query as form data, the key in the
    [Authorization] header. *)
Definition geocoder_kwargs (api_key address : pystr) : list (pystr * pyval) :=
  kwargs_of (PDict [(lit "query", PStr address)]) PNone
    (PDict [(lit "Authorization", PStr (lit "KakaoAK " ++ api_key))]).

End Post.

(** ** The months of a run *)

Module Calendar.

(** A [datetime.date]. *)
Record date := mkDate {
  year : Z;
  month : Z;
  day : Z
}.

Definition is_leap (y : Z) : bool :=
  (y mod 4 =? 0) && (negb (y mod 100 =? 0) || (y mod 400 =? 0)).

Definition days_in_month (y m : Z) : Z :=
  if m =? 2 then (if is_leap y then 29 else 28)
  else if (m =? 4) || (m =? 6) || (m =? 9) || (m =? 11) then 30
  else 31.

(** The dates the type holds: years 1 to 9999. *)
Definition valid (d : date) : bool :=
  (1 <=? year d) && (year d <=? 9999)
  && (1 <=? month d) && (month d <=? 12)
  && (1 <=? day d) && (day d <=? days_in_month (year d) (month d)).

(** [d.replace(day=1)] *)
Definition first_of_month (d : date) : date := mkDate (year d) (month d) 1.

(** [d - timedelta(days=1)]; [None] is the [OverflowError] before
    0001-01-01. *)
Definition day_before (d : date) : option date :=
  if 1 <? day d then Some (mkDate (year d) (month d) (day d - 1))
  else if 1 <? month d
       then Some (mkDate (year d) (month d - 1)
                         (days_in_month (year d) (month d - 1)))
       else if 1 <? year d then Some (mkDate (year d - 1) 12 31)
            else None.

(** The three dates whose months [main] collects: today, and
    [before_1_month], and the date [before_2_month_str] is printed
    from. *)
Definition windows (today : date) : option (date * date * date) :=
  before_1_month ← day_before (first_of_month today);
  before_2_month ← day_before (first_of_month before_1_month);
  Some (today, before_1_month, before_2_month).

(** The number of the month of a date, counted from year 0. *)
Definition month_index (d : date) : Z := 12 * year d + month d.

End Calendar.

(** ** The whole run *)

Module Whole.
Import Collector Resolver Main.

(** [for sggCd in LAWD_CD: ...], over any list of regions. *)
Fixpoint process_regions (session : Params → HttpReply) (geocoder : Geocoder)
    (api_key : pystr) (months : pystr * pystr * pystr)
    (st : State) (regions : list Region) : result State :=
  match regions with
  | [] => Return st
  | sggCd :: regions' =>
      st' ← process_region session geocoder api_key months st sggCd;
      process_regions session geocoder api_key months st' regions'
  end.

(** A record that has the fields the loop reads. *)
Definition complete (x : record) : bool :=
  forallb (λ name, bool_decide (is_Some (x !! name)))
          (lit "umdNm" :: lit "jibun" :: entry_fields).

(** A value [place_name, lat, lng = ...] can take apart. *)
Definition unpacks (v : pyval) : bool := returns (unpack3 v).

(** An entry [json.dump] can write into [data.json], a UTF-8 file like
    the cache file. *)
Definition entry_writable (e : Entry) : bool :=
  forallb Cache.str_writable
    [e_address e; e_aptNm e; e_date e; e_sggCd e; e_excluUseAr e;
     e_dealingGbn e; e_floor e; e_dealAmount e]
  && forallb Cache.writable [e_place_name e; e_lat e; e_lng e].

(** The end of [main]: [data.json] is written first. If that write
    raises, the cache file is never opened and stays as the run found
    it; otherwise the cache is written over it. *)
Definition finish (found : Cache.CacheFile) (st : State)
    : Cache.CacheFile * result unit :=
  if forallb entry_writable (data st)
  then Cache.save (ADDRESS_CACHE (run st))
  else (found, Raise UnicodeEncodeError).

(** A string without whitespace at either end. *)
Definition trimmed (s : pystr) : bool :=
  match s with
  | [] => true
  | c :: _ => negb (is_space c)
  end
  && match last s with
     | None => true
     | Some c => negb (is_space c)
     end.

(** The lines of the collector that report a failed page. *)
Definition is_diagnostic (e : Collector.event) : bool :=
  match e with
  | PageStatusError _ _ | PageApiError _ _ => true
  | _ => false
  end.

(** How far a state has come from another: the cache holds what it held,
    the queries posted since were for addresses the cache did not have,
    each of them counted as a call, and [n] records were counted. *)
Definition advanced (n : nat) (st st' : State) : Prop :=
  ADDRESS_CACHE (run st) ⊆ ADDRESS_CACHE (run st')
  ∧ (∃ asked,
       posted (run st') = posted (run st) ++ asked
       ∧ Forall (λ a, ADDRESS_CACHE (run st) !! a = None) asked
       ∧ api_call_count st' = (api_call_count st + length asked)%nat)
  ∧ (cache_hit_count st' + api_call_count st'
     = cache_hit_count st + api_call_count st + n)%nat
  ∧ (∃ more, data st' = data st ++ more ∧ (length more ≤ n)%nat).

End Whole.

(** ** Counting the moves of the event loop *)

Module GateCount.
Import Gate.

Definition is_suspended (t : task) : bool :=
  match t with Suspended => true | _ => false end.

Definition is_done (t : task) : bool :=
  match t with Done _ => true | _ => false end.

(** The moves a loop still has to make: two for a suspended task, one for
    a fetch in flight. *)
Definition remaining (s : loop) : nat :=
  2 * count is_suspended (tasks s) + count is_in_flight (tasks s).

(** The fetches of a schedule that ended. *)
Definition completions (schedule : list move) : nat :=
  length (filter (λ m, negb (is_admit m)) schedule).

End GateCount.

(** ** More sample peers *)

Module MoreSamples.
Import Collector.
Local Open Scope string_scope.

(** A first page that answers 500 and still carries a count and a record. *)
Definition refused_first (params : Params) : HttpReply :=
  if (pageNo params =? 1)%Z then Response 500 (Some Samples.first_of_25)
  else Samples.healthy params.

(** A first page whose count is no number. *)
Definition garbled_page : Element := Samples.page "000" (Some "many") [].
Definition garbled_count (params : Params) : HttpReply :=
  Response 200 (Some garbled_page).

(** An answer with an unlabelled document after an apartment. *)
Definition unlabelled : json :=
  JObject [(lit "y", JString (lit "37.0")); (lit "x", JString (lit "127.0"))].

Definition apartment_then_unlabelled : Resolver.Geocoder :=
  λ _ _, Samples.reply_with
           [Samples.candidate (lit "Flat") Resolver.APT
              (JString (lit "37.2")) (JString (lit "127.2"));
            unlabelled].

(** The geocoder's answer to a wrong key: an object without documents. *)
Definition rejected : Resolver.Geocoder :=
  λ _ _, Resolver.PostText
           (Some (JObject [(lit "errorType", JString (lit "AccessDeniedError"))])).

Definition new_year : Calendar.date := Calendar.mkDate 2026 1 15.

(** A record with every field the loop reads, and a transaction API that
    answers every request with that one record. *)
Definition full_item : Element :=
  Samples.el "item" None
    [Samples.el "umdNm" (Some "Sajik-dong") [];
     Samples.el "jibun" (Some "9") [];
     Samples.el "aptNm" (Some "Gwanghwamun") [];
     Samples.el "dealYear" (Some "2026") [];
     Samples.el "dealMonth" (Some "1") [];
     Samples.el "dealDay" (Some "15") [];
     Samples.el "excluUseAr" (Some "84.9") [];
     Samples.el "dealingGbn" (Some "direct") [];
     Samples.el "floor" (Some "3") [];
     Samples.el "dealAmount" (Some "150,000") []].

Definition one_trade (params : Params) : HttpReply :=
  Response 200
    (Some (Samples.el "response" None
             [Samples.el "body" None
                [Samples.el "items" None [full_item]; Samples.count "1"]])).

Definition MONTHS : pystr * pystr * pystr :=
  (lit "202611", lit "202610", lit "202609").

(** A cache file with one address, and the state a run starts in after
    loading it. *)
Definition old_file : Cache.CacheFile :=
  Cache.Holds
    (JObject [(lit "Seoul Jung-gu 1",
               JArray [JNull; JString (lit "37.5"); JString (lit "127.0")])]).

Definition loaded_state : Main.State :=
  Main.mkState
    (Resolver.mkRun
       (Cache.dict_of
          [(lit "Seoul Jung-gu 1",
            JArray [JNull; JString (lit "37.5"); JString (lit "127.0")])])
       [] [])
    [] 0 0.

(** A second record, next door; a state whose cache knows the address of
    [trade]; and the state the loop over three records ends in from
    there. *)
Definition trade_next_door : Collector.record :=
  <[lit "jibun" := lit "10"]> Samples.trade.

Definition known_state : Main.State :=
  Main.mkState
    (Resolver.mkRun
       {[Samples.ADDRESS := Resolver.triple (PStr (lit "Flat"))
                              (PStr (lit "37.2")) (PStr (lit "127.2"))]}
       [] [])
    [] 0 0.

Definition visited_state : Main.State :=
  match
    Main.process_records Samples.knows_three Samples.JONGNO_GU known_state
      [Samples.trade; trade_next_door; Samples.trade]
  with
  | Return st' => st'
  | Raise _ => known_state
  end.

(** The state that run ends its loop in. *)
Definition ended_state : Main.State :=
  match
    Whole.process_regions one_trade Samples.knows_three Samples.KEY MONTHS
      loaded_state [Samples.JONGNO_GU]
  with
  | Return st' => st'
  | Raise _ => loaded_state
  end.

(** A state whose cache has an array of two for the address of [trade]. *)
Definition spoiled_state : Main.State :=
  Main.mkState
    (Resolver.mkRun {[Samples.ADDRESS := PList [PNone; PNone]]} [] [])
    [] 0 0.

(** [trade] after the loop has written its address into it. *)
Definition addressed_trade : Collector.record :=
  <[lit "ADDRESS" := Samples.ADDRESS]> Samples.trade.

End MoreSamples.

(** * Properties *)

(** ** The error monad and ranges *)

Module PyFacts.

Lemma bind_return {A B} (m : result A) (f : A → result B) (a : A) :
  m = Return a → (m ≫= f) = f a.
Proof. intros ->. reflexivity. Qed.

Lemma range_empty (lo hi : Z) : hi ≤ lo → range lo hi = [].
Proof. intros H. unfold range. apply seqZ_nil. lia. Qed.

Lemma mapR_fmap {A B} (f : A → result B) (xs : list A) :
  mapR id (f <$> xs) = mapR f xs.
Proof.
  induction xs as [|x xs IH]; [reflexivity|]. cbn. rewrite IH.
  destruct (f x); reflexivity.
Qed.

End PyFacts.
Import PyFacts.

(** ** The admission gate *)

Module GateFacts.
Import Collector Gate.

Lemma count_cons kind t ts :
  count kind (t :: ts) = (weight kind t + count kind ts)%nat.
Proof.
  unfold count, weight. rewrite filter_cons.
  destruct (kind t); reflexivity.
Qed.

(** Replacing one task moves the count by the difference of the two. *)
Lemma count_insert kind ts i t t' :
  ts !! i = Some t →
  (count kind (<[i := t']> ts) + weight kind t
   = count kind ts + weight kind t')%nat.
Proof.
  revert i. induction ts as [|x ts IH]; intros i Hi; [done|].
  destruct i as [|i]; simpl in *.
  - injection Hi as ->. rewrite !count_cons. lia.
  - rewrite !count_cons. specialize (IH i Hi). lia.
Qed.

Lemma count_replicate_suspended kind n :
  kind Suspended = false → count kind (replicate n Suspended) = 0%nat.
Proof.
  intros Hkind. induction n as [|n IH]; [reflexivity|]. simpl.
  rewrite count_cons, IH. unfold weight. by rewrite Hkind.
Qed.

Section Facts.

Variable session : Params → HttpReply.
Variable pages : list Params.

Lemma start_consistent : consistent session pages (start pages).
Proof.
  split.
  - unfold in_flight, start. simpl.
    by rewrite (count_replicate_suspended is_in_flight (length pages)).
  - unfold start. simpl. induction pages as [|p ps IH]; simpl; constructor;
      [intros r [=]|exact IH].
Qed.

Lemma step_consistent m s s' :
  consistent session pages s → step session pages m s = Some s' →
  consistent session pages s'.
Proof.
  intros [Hslots Htasks]. unfold step.
  destruct m as [i|i].
  - destruct (tasks s !! i) as [[| |r]|] eqn:Hi; try discriminate.
    destruct (Nat.ltb_spec 0 (value s)) as [Hpos|]; [|discriminate].
    intros [= <-]. split.
    + pose proof (count_insert is_in_flight (tasks s) i Suspended InFlight Hi)
        as Hc.
      unfold in_flight in *. cbn [tasks value weight is_in_flight] in *. lia.
    + destruct (Forall2_lookup_l _ _ _ i Suspended Htasks Hi) as (p & Hp & _).
      cbn [tasks]. rewrite <- (list_insert_id pages i p Hp).
      apply Forall2_insert; [exact Htasks|intros r [=]].
  - destruct (tasks s !! i) as [[| |r]|] eqn:Hi; try discriminate.
    destruct (pages !! i) as [p|] eqn:Hp; [|discriminate].
    intros [= <-]. split.
    + pose proof (count_insert is_in_flight (tasks s) i InFlight
                    (Done (fetch_page session p)) Hi) as Hc.
      unfold in_flight in *. cbn [tasks value weight is_in_flight] in *. lia.
    + cbn [tasks]. rewrite <- (list_insert_id pages i p Hp).
      apply Forall2_insert; [exact Htasks|]. by intros r [= <-].
Qed.

Lemma run_consistent schedule s s' :
  consistent session pages s → run session pages schedule s = Some s' →
  consistent session pages s'.
Proof.
  revert s. induction schedule as [|m schedule IH]; simpl; intros s Hs.
  - by intros [= <-].
  - destruct (step session pages m s) as [s1|] eqn:Hm; [|discriminate].
    apply IH. by eapply step_consistent.
Qed.

(** Once every task is done, [gather] has what [fetch_page] gives for
    each page, in page order: the [mapR] of the collector. *)
Lemma gathered_agrees s r :
  consistent session pages s → gathered s = Some r →
  r = mapR (fetch_page session) pages.
Proof.
  intros [_ Htasks]. unfold gathered.
  destruct (mapM outcome_of (tasks s)) as [outcomes|] eqn:Hm; [|discriminate].
  cbn. intros [= <-]. apply mapM_Some in Hm.
  assert (Hout : outcomes = fetch_page session <$> pages).
  { revert Htasks. generalize pages.
    induction Hm as [|t o ts os Ht _ IH]; intros ps Hps; inversion Hps; subst;
      [reflexivity|].
    rewrite fmap_cons. f_equal; [|by apply IH].
    destruct t; try discriminate. injection Ht as <-. eauto. }
  rewrite Hout. apply mapR_fmap.
Qed.

(** Every admission starts one task, and nothing else does. *)
Lemma run_admissions schedule s s' :
  run session pages schedule s = Some s' →
  started s' = (started s + admissions schedule)%nat.
Proof.
  revert s. induction schedule as [|m schedule IH]; simpl; intros s.
  - intros [= <-]. unfold admissions. simpl. lia.
  - destruct (step session pages m s) as [s1|] eqn:Hm; [|discriminate].
    intros Hrun. rewrite (IH _ Hrun). clear IH Hrun.
    unfold admissions. rewrite filter_cons. revert Hm. unfold step.
    destruct m as [i|i].
    + destruct (tasks s !! i) as [[| |r]|] eqn:Hi; try discriminate.
      destruct (0 <? value s)%nat; [|discriminate]. intros [= <-].
      pose proof (count_insert is_started (tasks s) i Suspended InFlight Hi)
        as Hc.
      unfold started. cbn [tasks weight is_started is_admit] in *.
      simpl. lia.
    + destruct (tasks s !! i) as [[| |r]|] eqn:Hi; try discriminate.
      destruct (pages !! i) as [p|]; [|discriminate]. intros [= <-].
      pose proof (count_insert is_started (tasks s) i InFlight
                    (Done (fetch_page session p)) Hi) as Hc.
      unfold started. cbn [tasks weight is_started is_admit] in *.
      simpl. lia.
Qed.

Lemma gathered_all_started s :
  is_Some (gathered s) → started s = length (tasks s).
Proof.
  unfold gathered. intros [r Hr].
  destruct (mapM outcome_of (tasks s)) as [outcomes|] eqn:Hm; [|discriminate].
  apply mapM_Some in Hm. unfold started. clear Hr.
  induction Hm as [|t o ts os Ht _ IH]; [reflexivity|].
  rewrite count_cons, IH. destruct t; try discriminate. reflexivity.
Qed.

(** In a run of the loop that [gather] returns from, every page went
    through the gate once: as many GETs as pages. *)
Lemma every_page_admitted_once schedule s :
  run session pages schedule (start pages) = Some s →
  is_Some (gathered s) →
  admissions schedule = length pages.
Proof.
  intros Hrun Hdone.
  pose proof (run_admissions _ _ _ Hrun) as Hstarted.
  rewrite (gathered_all_started _ Hdone) in Hstarted.
  destruct (run_consistent _ _ _ start_consistent Hrun) as [_ Htasks].
  apply Forall2_length in Htasks.
  unfold started, start in Hstarted. cbn [tasks] in Hstarted.
  rewrite (count_replicate_suspended is_started) in Hstarted by reflexivity.
  lia.
Qed.

(** Whatever the order the loop takes the pages in, [gather] returns what
    the collector's [mapR] computes, after one GET per page. *)
Lemma gather_in_any_order schedule s r :
  run session pages schedule (start pages) = Some s →
  gathered s = Some r →
  admissions schedule = length pages
  ∧ r = mapR (fetch_page session) pages.
Proof.
  intros Hrun Hr. split.
  - eapply every_page_admitted_once; eauto.
  - eapply gathered_agrees; [|exact Hr].
    exact (run_consistent _ _ _ start_consistent Hrun).
Qed.

(** The gate never blocks the collection: taking the pages one at a time
    is a schedule, and it ends with every task done. *)
Lemma one_by_one_runs (before rest : list Params) :
  pages = before ++ rest →
  run session pages (one_by_one (length before) (length rest))
    (mkLoop CEILING
       (((λ p, Done (fetch_page session p)) <$> before)
        ++ replicate (length rest) Suspended))
  = Some (mkLoop CEILING ((λ p, Done (fetch_page session p)) <$> pages)).
Proof.
  revert before. induction rest as [|p rest IH]; intros before Hpages.
  - subst. simpl. by rewrite !app_nil_r.
  - assert (Hlen : length ((λ p, Done (fetch_page session p)) <$> before)
                   = length before) by apply length_fmap.
    unfold one_by_one. cbn [length seq flat_map app run step tasks value].
    rewrite lookup_app_r by lia. rewrite Hlen, Nat.sub_diag. cbn.
    rewrite insert_app_r_alt by lia. rewrite Hlen, Nat.sub_diag. cbn.
    rewrite lookup_app_r by lia. rewrite Hlen, Nat.sub_diag. cbn.
    assert (Hp : pages !! length before = Some p).
    { rewrite Hpages. by apply list_lookup_middle. }
    rewrite Hp. rewrite insert_app_r_alt by lia.
    rewrite Hlen, Nat.sub_diag. cbn.
    specialize (IH (before ++ [p])).
    rewrite length_app, Nat.add_1_r, fmap_app, <- !app_assoc in IH.
    apply IH. exact Hpages.
Qed.

Lemma complete_run_exists :
  ∃ schedule s,
    run session pages schedule (start pages) = Some s
    ∧ gathered s = Some (mapR (fetch_page session) pages).
Proof.
  exists (one_by_one 0 (length pages)).
  exists (mkLoop CEILING ((λ p, Done (fetch_page session p)) <$> pages)).
  split; [exact (one_by_one_runs [] pages eq_refl)|].
  unfold gathered. cbn.
  assert (Hm : mapM outcome_of ((λ p, Done (fetch_page session p)) <$> pages)
               = Some (fetch_page session <$> pages)).
  { apply mapM_Some. apply Forall2_fmap, Forall_Forall2_diag, Forall_forall.
    reflexivity. }
  rewrite Hm. cbn. by rewrite mapR_fmap.
Qed.

(** C8. Whatever the number of pages and the order the event loop takes
    them in, at most five page fetches are in flight: the fetches in
    flight and the counter of the semaphore add up to five. With five in
    flight no task gets through the gate; a task gets through only below
    the ceiling, and every fetch that ends, with a result or with an
    exception, frees one slot. A fetch in flight can always end, a
    suspended one can always go on below the ceiling. *)
Theorem gate_bounds_in_flight schedule s :
  run session pages schedule (start pages) = Some s →
  (in_flight s ≤ 5)%nat
  ∧ (in_flight s + value s = CEILING)%nat
  ∧ (∀ i, in_flight s = 5%nat → step session pages (Admit i) s = None)
  ∧ (∀ i s', step session pages (Admit i) s = Some s' →
       (in_flight s < 5)%nat ∧ in_flight s' = S (in_flight s))
  ∧ (∀ i s', step session pages (Complete i) s = Some s' →
       in_flight s = S (in_flight s') ∧ value s' = S (value s)
       ∧ ∃ params, pages !! i = Some params
                   ∧ tasks s' !! i = Some (Done (fetch_page session params)))
  ∧ (∀ i, tasks s !! i = Some InFlight →
       is_Some (step session pages (Complete i) s))
  ∧ (∀ i, tasks s !! i = Some Suspended → (in_flight s < 5)%nat →
       is_Some (step session pages (Admit i) s)).
Proof.
  intros Hrun.
  pose proof (run_consistent _ _ _ start_consistent Hrun) as Hs.
  assert (Hnext : ∀ m s', step session pages m s = Some s' →
                          (in_flight s' + value s' = 5)%nat).
  { intros m s' Hm. by destruct (step_consistent _ _ _ Hs Hm). }
  destruct Hs as [Hslots Htasks]. unfold CEILING in *.
  split; [lia|]. split; [exact Hslots|].
  split; [|split; [|split; [|split]]].
  - intros i Hfull. unfold step.
    destruct (tasks s !! i) as [[| |r]|]; try reflexivity.
    destruct (Nat.ltb_spec 0 (value s)); [lia|reflexivity].
  - intros i s' Hm. specialize (Hnext _ _ Hm). revert Hm Hnext. unfold step.
    destruct (tasks s !! i) as [[| |r]|]; try discriminate.
    destruct (Nat.ltb_spec 0 (value s)); [|discriminate].
    intros [= <-]. simpl. lia.
  - intros i s' Hm. specialize (Hnext _ _ Hm). revert Hm Hnext. unfold step.
    destruct (tasks s !! i) as [[| |r]|] eqn:Hi; try discriminate.
    destruct (pages !! i) as [p|]; [|discriminate].
    intros [= <-]. simpl. intros Hnext. split; [lia|]. split; [reflexivity|].
    exists p. split; [reflexivity|].
    apply list_lookup_insert_eq. by eapply lookup_lt_Some.
  - intros i Hi.
    destruct (Forall2_lookup_l _ _ _ i InFlight Htasks Hi) as (p & Hp & _).
    unfold step. rewrite Hi, Hp. eauto.
  - intros i Hi Hbelow. unfold step. rewrite Hi.
    destruct (Nat.ltb_spec 0 (value s)); [eauto|lia].
Qed.

End Facts.

Import Samples.

Lemma gate_bounds_in_flight_witness :
  in_flight gate_full = 5%nat
  ∧ step healthy twelve_pages (Admit 5) gate_full = None
  ∧ is_Some (step healthy twelve_pages (Complete 2) gate_full).
Proof.
  destruct (gate_bounds_in_flight healthy twelve_pages five_admissions
              gate_full eq_refl)
    as (_ & _ & Hfull & _ & _ & Hends & _).
  split; [reflexivity|]. split; [by apply Hfull|]. by apply Hends.
Defined.

End GateFacts.

(** ** The collector *)

Module CollectorFacts.
Import Collector.

Section Facts.

Variable session : Params → HttpReply.

(** When no page raises, [gather] returns what each page returns. *)
Lemma gather_returns (tasks : list Params) :
  forallb (λ p, returns (fetch_page session p)) tasks = true →
  mapR (fetch_page session) tasks
  = Return ((λ p, (page_lines session p, page_items session p)) <$> tasks).
Proof.
  induction tasks as [|p tasks IH]; simpl; intros H; [reflexivity|].
  apply andb_prop in H as [Hp Htasks].
  unfold page_lines, page_items.
  destruct (fetch_page session p) as [[lines page_data]|e]; [|discriminate].
  cbn. rewrite (IH Htasks). reflexivity.
Qed.

(** A page that raises takes [gather] with it. *)
Lemma gather_raises (tasks : list Params) :
  forallb (λ p, returns (fetch_page session p)) tasks = false →
  returns (mapR (fetch_page session) tasks) = false.
Proof.
  induction tasks as [|p tasks IH]; simpl; intros H; [discriminate|].
  destruct (fetch_page session p) as [r|e]; cbn; [|reflexivity].
  simpl in H. specialize (IH H).
  destruct (mapR (fetch_page session) tasks); [discriminate|reflexivity].
Qed.

(** The collection, when page 1 carries a count and no later page raises. *)
Lemma collect_returns api_key lawd_cd deal_ymd num_of_rows
    status root tc total_count total_pages :
  let params := first_params api_key lawd_cd deal_ymd num_of_rows in
  let tasks := later_pages params total_pages in
  let all_items := parse_items root ++ concat (page_items session <$> tasks) in
  session params = Response status (Some root) →
  find root (lit "totalCount") = Some tc →
  py_int (text tc) = Return total_count →
  ceil_div total_count num_of_rows = Return total_pages →
  forallb (λ p, returns (fetch_page session p)) tasks = true →
  fetch_all_apt_trade_data_async session api_key lawd_cd deal_ymd num_of_rows
  = Return (mkCollected all_items (params :: tasks)
              (concat (page_lines session <$> tasks)
               ++ [Collected lawd_cd deal_ymd (length all_items)])).
Proof.
  intros params tasks all_items Hfirst Hfind Hint Hceil Hpages.
  unfold fetch_all_apt_trade_data_async.
  fold params. rewrite Hfirst. cbn. rewrite Hfind.
  rewrite (bind_return _ _ _ Hint), (bind_return _ _ _ Hceil).
  fold tasks. rewrite (bind_return _ _ _ (gather_returns tasks Hpages)).
  unfold all_items. rewrite <- !list_fmap_compose. reflexivity.
Qed.

(** ... and when a later page raises, the collection raises. *)
Lemma collect_raises api_key lawd_cd deal_ymd num_of_rows
    status root tc total_count total_pages :
  let params := first_params api_key lawd_cd deal_ymd num_of_rows in
  let tasks := later_pages params total_pages in
  session params = Response status (Some root) →
  find root (lit "totalCount") = Some tc →
  py_int (text tc) = Return total_count →
  ceil_div total_count num_of_rows = Return total_pages →
  forallb (λ p, returns (fetch_page session p)) tasks = false →
  returns (fetch_all_apt_trade_data_async session api_key lawd_cd deal_ymd
             num_of_rows) = false.
Proof.
  intros params tasks Hfirst Hfind Hint Hceil Hpages.
  unfold fetch_all_apt_trade_data_async.
  fold params. rewrite Hfirst. cbn. rewrite Hfind.
  rewrite (bind_return _ _ _ Hint), (bind_return _ _ _ Hceil).
  fold tasks. pose proof (gather_raises tasks Hpages) as Hgather.
  destruct (mapR (fetch_page session) tasks); [discriminate|reflexivity].
Qed.

(** A soft failure gives an empty page and one printed line. *)
Lemma soft_failure_empty_page (params : Params) :
  soft_failure (session params) = true →
  ∃ diagnostic, fetch_page session params = Return ([diagnostic], []).
Proof.
  unfold soft_failure, fetch_page.
  destruct (session params) as [|status body]; [discriminate|].
  destruct (negb (status =? 200)); [eauto|]. simpl.
  destruct body as [root|]; [|discriminate]. cbn.
  destruct (api_error root); [|discriminate]. simpl.
  intros [m Hm]%bool_decide_eq_true_1. rewrite Hm. eauto.
Qed.

(** Among the later pages only one carries a given page number. *)
Lemma later_pages_pageNo params total_pages p page :
  p ∈ later_pages params total_pages → pageNo p = page →
  p = with_pageNo params page.
Proof.
  unfold later_pages. intros (q & -> & _)%list_elem_of_fmap. simpl.
  intros ->. reflexivity.
Qed.

Lemma later_pages_elem params total_pages page :
  2 ≤ page ≤ total_pages →
  with_pageNo params page ∈ later_pages params total_pages.
Proof.
  intros H. unfold later_pages, range. apply list_elem_of_fmap.
  exists page. split; [reflexivity|]. apply elem_of_seqZ. lia.
Qed.

(** Pages that add nothing can be left out of the sum. *)
Lemma concat_skip_empty {A B} (f : A → list B) (P : A → Prop)
    `{∀ x, Decision (P x)} (xs : list A) :
  (∀ x, x ∈ xs → ¬ P x → f x = []) →
  concat (f <$> xs) = concat (f <$> filter P xs).
Proof.
  induction xs as [|x xs IH]; intros Hskip; [reflexivity|].
  assert (IH' : concat (f <$> xs) = concat (f <$> filter P xs)).
  { apply IH. intros y Hy. apply Hskip. by right. }
  rewrite filter_cons, fmap_cons. cbn [concat]. rewrite IH'.
  destruct (decide (P x)) as [HP|HP]; [reflexivity|].
  rewrite (Hskip x); [reflexivity|by left|done].
Qed.

(** C1. The collector asks for page 1 and then for each of the pages 2 to
    [total_pages = ceil(total_count / num_of_rows)], and returns the
    records of page 1 followed by those of the later pages in page order,
    provided no page request raises. With 25 records in pages of 10 that
    is three requests, pages 1, 2 and 3; with at most one page it is the
    request of page 1 and its records. In whatever order the event loop
    runs the later pages, each goes through the gate once and [gather]
    hands their results back in page order. *)
Theorem collect_page_requests api_key lawd_cd deal_ymd num_of_rows
    status root tc total_count total_pages :
  let params := first_params api_key lawd_cd deal_ymd num_of_rows in
  let tasks := later_pages params total_pages in
  session params = Response status (Some root) →
  find root (lit "totalCount") = Some tc →
  py_int (text tc) = Return total_count →
  ceil_div total_count num_of_rows = Return total_pages →
  forallb (λ p, returns (fetch_page session p)) tasks = true →
  ∃ c,
    fetch_all_apt_trade_data_async session api_key lawd_cd deal_ymd num_of_rows
    = Return c
    ∧ requests c = params :: tasks
    ∧ items c = parse_items root ++ concat (page_items session <$> tasks)
    ∧ (total_count = 25 → num_of_rows = 10 →
       total_pages = 3
       ∧ requests c = [params; with_pageNo params 2; with_pageNo params 3]
       ∧ length (requests c) = 3%nat
       ∧ items c = parse_items root
                   ++ page_items session (with_pageNo params 2)
                   ++ page_items session (with_pageNo params 3))
    ∧ (total_pages ≤ 1 → requests c = [params] ∧ items c = parse_items root)
    ∧ (∀ schedule s r,
         Gate.run session tasks schedule (Gate.start tasks) = Some s →
         Gate.gathered s = Some r →
         Gate.admissions schedule = length tasks
         ∧ r = mapR (fetch_page session) tasks).
Proof.
  intros params tasks Hfirst Hfind Hint Hceil Hpages.
  eexists. split; [by eapply collect_returns|]. simpl. fold params tasks.
  split; [reflexivity|]. split; [reflexivity|].
  split; [|split; [|by apply GateFacts.gather_in_any_order]].
  - intros -> ->.
    assert (total_pages = 3) as -> by (vm_compute in Hceil; congruence).
    unfold tasks.
    replace (later_pages params 3)
      with [with_pageNo params 2; with_pageNo params 3] by reflexivity.
    cbn [fmap list_fmap concat length]. rewrite app_nil_r. done.
  - intros Hle. unfold tasks, later_pages.
    rewrite range_empty by lia. cbn. rewrite app_nil_r. done.
Qed.

(** C2, as the code has it. A later page that answers with a status other
    than 200, or with a result code other than [000] next to its message,
    adds no record and prints one line; the collection still returns, with
    the records of page 1 and of every other page, whenever no other page
    raises. *)
Theorem soft_failure_is_tolerated api_key lawd_cd deal_ymd num_of_rows
    status root tc total_count total_pages page :
  let params := first_params api_key lawd_cd deal_ymd num_of_rows in
  let tasks := later_pages params total_pages in
  let failed := with_pageNo params page in
  session params = Response status (Some root) →
  find root (lit "totalCount") = Some tc →
  py_int (text tc) = Return total_count →
  ceil_div total_count num_of_rows = Return total_pages →
  2 ≤ page ≤ total_pages →
  soft_failure (session failed) = true →
  forallb (λ p, (pageNo p =? page) || returns (fetch_page session p)) tasks
  = true →
  ∃ diagnostic c,
    fetch_page session failed = Return ([diagnostic], [])
    ∧ fetch_all_apt_trade_data_async session api_key lawd_cd deal_ymd num_of_rows
      = Return c
    ∧ diagnostic ∈ log c
    ∧ requests c = params :: tasks
    ∧ items c = parse_items root
                ++ concat (page_items session
                             <$> filter (λ p, pageNo p ≠ page) tasks).
Proof.
  intros params tasks failed Hfirst Hfind Hint Hceil Hpage Hsoft Hothers.
  destruct (soft_failure_empty_page failed Hsoft) as [diagnostic Hfailed].
  assert (Hall : forallb (λ p, returns (fetch_page session p)) tasks = true).
  { apply forallb_forall. intros p Hp.
    pose proof (proj1 (forallb_forall _ _) Hothers p Hp) as Hq. simpl in Hq.
    apply orb_prop in Hq as [Hq%Z.eqb_eq|Hq]; [|exact Hq].
    apply list_elem_of_In in Hp.
    rewrite (later_pages_pageNo _ _ _ _ Hp Hq). fold failed.
    by rewrite Hfailed. }
  exists diagnostic. eexists.
  split; [exact Hfailed|]. split; [by eapply collect_returns|]. simpl.
  fold params tasks. split; [|split; [reflexivity|]].
  - apply elem_of_app. left. apply list_elem_of_In, in_concat.
    exists (page_lines session failed). split.
    + apply list_elem_of_In, list_elem_of_fmap. exists failed.
      split; [reflexivity|]. by apply later_pages_elem.
    + unfold page_lines. rewrite Hfailed. by left.
  - f_equal. apply concat_skip_empty. intros p Hp Hq.
    assert (pageNo p = page) as Heq by (destruct (decide (pageNo p = page)); done).
    rewrite (later_pages_pageNo _ _ _ _ Hp Heq). fold failed.
    unfold page_items. by rewrite Hfailed.
Qed.

(** C6, as the code has it. A first page without a count ends the
    collection with no record; a count of zero ends it with the records of
    page 1, none when the page carries no item. Either way page 1 is the
    only request. *)
Theorem collect_without_records api_key lawd_cd deal_ymd num_of_rows
    status root :
  let params := first_params api_key lawd_cd deal_ymd num_of_rows in
  session params = Response status (Some root) →
  (find root (lit "totalCount") = None →
   fetch_all_apt_trade_data_async session api_key lawd_cd deal_ymd num_of_rows
   = Return (mkCollected [] [params] [NoTotalCount]))
  ∧ (∀ tc, find root (lit "totalCount") = Some tc →
     py_int (text tc) = Return 0 → num_of_rows ≠ 0 →
     ∃ c,
       fetch_all_apt_trade_data_async session api_key lawd_cd deal_ymd
         num_of_rows = Return c
       ∧ requests c = [params]
       ∧ items c = parse_items root
       ∧ (findall root (lit "item") = [] → items c = [])).
Proof.
  intros params Hfirst. split.
  - intros Hfind. unfold fetch_all_apt_trade_data_async.
    fold params. rewrite Hfirst. cbn. rewrite Hfind. reflexivity.
  - intros tc Hfind Hint Hrows.
    assert (Hceil : ceil_div 0 num_of_rows = Return 0).
    { unfold ceil_div. destruct (Z.eqb_spec num_of_rows 0); [done|].
      by rewrite Z.div_0_l. }
    eexists. split.
    + eapply collect_returns; try eassumption. reflexivity.
    + simpl. rewrite app_nil_r. repeat split.
      intros Hnone. unfold parse_items. by rewrite Hnone.
Qed.

End Facts.

Import Samples.

Lemma collect_page_requests_witness :
  ∃ c,
    fetch_all_apt_trade_data_async healthy KEY JONGNO MONTH 10 = Return c
    ∧ length (requests c) = 3%nat
    ∧ length (items c) = 4%nat.
Proof.
  destruct (collect_page_requests healthy KEY JONGNO MONTH 10 200
              first_of_25 (count "25") 25 3)
    as (c & Hc & _ & Hitems & H25 & _); try reflexivity.
  exists c. split; [exact Hc|].
  destruct H25 as (_ & _ & Hn & _); try reflexivity.
  split; [exact Hn|]. rewrite Hitems. reflexivity.
Defined.

Lemma soft_failure_is_tolerated_witness :
  ∃ c,
    fetch_all_apt_trade_data_async degraded KEY JONGNO MONTH 10 = Return c
    ∧ PageStatusError 2 503 ∈ log c
    ∧ length (items c) = 1%nat.
Proof.
  destruct (soft_failure_is_tolerated degraded KEY JONGNO MONTH 10 200
              first_of_25 (count "25") 25 3 2)
    as (d & c & Hd & Hc & Hlog & _ & Hitems); try reflexivity; [lia|].
  exists c. split; [exact Hc|].
  injection Hd as <-. split; [exact Hlog|]. rewrite Hitems. reflexivity.
Defined.

(** C2 as stated fails: a request that raises is not an empty page.
    [gather] passes the exception on and the collector raises with it,
    the records of pages 1 and 3 notwithstanding. *)
Lemma transport_error_aborts_collection :
  broken (with_pageNo (first_params KEY JONGNO MONTH 10) 2) = TransportError
  ∧ length (page_items broken (with_pageNo (first_params KEY JONGNO MONTH 10) 3))
    = 1%nat
  ∧ fetch_all_apt_trade_data_async broken KEY JONGNO MONTH 10
    = Raise ClientError.
Proof. repeat split. Qed.

Lemma collect_without_records_witness :
  fetch_all_apt_trade_data_async unknown KEY JONGNO MONTH 10
  = Return (mkCollected [] [first_params KEY JONGNO MONTH 10] [NoTotalCount])
  ∧ ∃ c,
      fetch_all_apt_trade_data_async empty KEY JONGNO MONTH 10 = Return c
      ∧ requests c = [first_params KEY JONGNO MONTH 10]
      ∧ items c = [].
Proof.
  split.
  - apply (collect_without_records unknown KEY JONGNO MONTH 10 200 no_count);
      reflexivity.
  - destruct (proj2 (collect_without_records empty KEY JONGNO MONTH 10 200
                       zero_records eq_refl)
                    (count "0"))
      as (c & Hc & Hreq & _ & Hnone); try reflexivity; [lia|].
    exists c. split; [exact Hc|]. split; [exact Hreq|].
    apply Hnone. reflexivity.
Defined.

(** C6 as stated fails: with a count of zero the collector returns
    whatever records page 1 carries. *)
Lemma zero_count_keeps_first_page :
  find zero_with_item (lit "totalCount") = Some (count "0")
  ∧ py_int (text (count "0")) = Return 0
  ∧ ∃ c,
      fetch_all_apt_trade_data_async inconsistent KEY JONGNO MONTH 10 = Return c
      ∧ length (items c) = 1%nat.
Proof. repeat split. eexists. split; reflexivity. Qed.

End CollectorFacts.


(** ** The cache file *)

Module CacheFacts.
Import Cache.

(** *** Building a dict from members *)

Lemma setitem_fresh key v d :
  key ∉ d.*1 → setitem key v d = d ++ [(key, v)].
Proof.
  induction d as [|[k x] d IH]; simpl; intros Hfresh; [reflexivity|].
  rewrite bool_decide_eq_false_2 by (intros ->; apply Hfresh; by left).
  rewrite IH; [reflexivity|]. intros Hin. apply Hfresh. by right.
Qed.

Lemma foldl_setitem_distinct (acc members : list (pystr * pyval)) :
  NoDup (acc ++ members).*1 →
  foldl (λ d kv, setitem kv.1 kv.2 d) acc members = acc ++ members.
Proof.
  revert acc. induction members as [|[k v] members IH]; intros acc Hnd; simpl.
  - by rewrite app_nil_r.
  - rewrite setitem_fresh.
    + rewrite IH; rewrite <- app_assoc; [reflexivity|exact Hnd].
    + rewrite fmap_app in Hnd. apply NoDup_app in Hnd as (_ & Hdisj & _).
      intros Hin. apply (Hdisj k Hin). by left.
Qed.

(** A list of members with distinct names is the dict as it stands. *)
Lemma dict_of_members_distinct (members : list (pystr * pyval)) :
  NoDup members.*1 → dict_of_members members = members.
Proof. intros Hnd. by apply (foldl_setitem_distinct [] members). Qed.

Lemma setitem_keys key v d :
  (setitem key v d).*1 = if bool_decide (key ∈ d.*1) then d.*1 else d.*1 ++ [key].
Proof.
  induction d as [|[k x] d IH]; [reflexivity|].
  cbn [setitem]. rewrite fmap_cons. cbn [fst].
  destruct (bool_decide_reflect (k = key)) as [->|Hne].
  - rewrite bool_decide_eq_true_2 by (by left). reflexivity.
  - rewrite fmap_cons, IH. cbn [fst].
    destruct (bool_decide_reflect (key ∈ d.*1)) as [Hin|Hout].
    + rewrite bool_decide_eq_true_2 by (by right). reflexivity.
    + rewrite bool_decide_eq_false_2; [reflexivity|].
      intros [Heq|Hin]%elem_of_cons; congruence.
Qed.

Lemma setitem_NoDup key v d : NoDup d.*1 → NoDup (setitem key v d).*1.
Proof.
  intros Hnd. rewrite setitem_keys. case_bool_decide; [exact Hnd|].
  apply NoDup_app. split; [exact Hnd|]. split; [|apply NoDup_singleton].
  intros k Hk ->%list_elem_of_singleton. done.
Qed.

Lemma setitem_values (Q : pyval → Prop) key v d :
  Q v → Forall (λ kv, Q kv.2) d → Forall (λ kv, Q kv.2) (setitem key v d).
Proof.
  intros Hv. induction 1 as [|[k x] d Hx Hd IH]; simpl.
  - by constructor.
  - case_bool_decide; constructor; done.
Qed.

Lemma dict_of_members_spec (Q : pyval → Prop) members :
  Forall (λ kv, Q kv.2) members →
  NoDup (dict_of_members members).*1
  ∧ Forall (λ kv, Q kv.2) (dict_of_members members).
Proof.
  unfold dict_of_members.
  assert (Hgen : ∀ acc, NoDup acc.*1 → Forall (λ kv, Q kv.2) acc →
            Forall (λ kv, Q kv.2) members →
            NoDup (foldl (λ d kv, setitem kv.1 kv.2 d) acc members).*1
            ∧ Forall (λ kv, Q kv.2)
                (foldl (λ d kv, setitem kv.1 kv.2 d) acc members)).
  { induction members as [|[k v] members IH]; intros acc Hnd Hacc Hm; simpl.
    - done.
    - inversion Hm; subst. apply IH; [by apply setitem_NoDup| |done].
      by apply setitem_values. }
  intros Hm. apply Hgen; [constructor|constructor|exact Hm].
Qed.

(** *** Writing a value and reading it back *)

Lemma map_values_ext {A B} (f g : A → B) (d : list (pystr * A)) :
  Forall (λ kv, f kv.2 = g kv.2) d →
  map (λ kv, (kv.1, f kv.2)) d = map (λ kv, (kv.1, g kv.2)) d.
Proof.
  induction 1 as [|[k x] d Hx _ IH]; [reflexivity|].
  simpl in *. by rewrite Hx, IH.
Qed.

Lemma map_values_keys {A B} (f : A → B) (d : list (pystr * A)) :
  (map (λ kv, (kv.1, f kv.2)) d).*1 = d.*1.
Proof.
  induction d as [|[k x] d IH]; [reflexivity|].
  cbn [map]. rewrite !fmap_cons. cbn [fst]. by rewrite IH.
Qed.

Lemma map_values_id {A} (f : A → A) (d : list (pystr * A)) :
  Forall (λ kv, f kv.2 = kv.2) d → map (λ kv, (kv.1, f kv.2)) d = d.
Proof.
  induction 1 as [|[k x] d Hx _ IH]; [reflexivity|].
  simpl in *. by rewrite Hx, IH.
Qed.

(** What [json.load] builds holds no tuple. *)
Lemma listify_decode (j : json) : listify (decode j) = decode j.
Proof.
  induction j as [| | | | |l IH|d IH] using json_induction; try reflexivity.
  - simpl. f_equal. rewrite map_map. apply map_ext_Forall. exact IH.
  - simpl. f_equal. apply map_values_id.
    apply (dict_of_members_spec (λ v, listify v = v)).
    apply Forall_fmap. exact IH.
Qed.

(** ... and dicts with distinct keys. *)
Lemma distinct_keys_decode (j : json) : distinct_keys (decode j) = true.
Proof.
  induction j as [| | | | |l IH|d IH] using json_induction; try reflexivity.
  - simpl. apply forallb_forall. intros v (x & <- & Hx)%in_map_iff.
    rewrite List.Forall_forall in IH. by apply IH.
  - simpl.
    destruct (dict_of_members_spec (λ v, distinct_keys v = true)
                (map (λ kv, (kv.1, decode kv.2)) d)) as [Hnd Hvals].
    { apply Forall_fmap. exact IH. }
    apply andb_true_intro. split; [by apply bool_decide_eq_true_2|].
    apply forallb_forall. rewrite List.Forall_forall in Hvals. exact Hvals.
Qed.

(** Written and read back, a value is itself with lists for tuples. *)
Lemma decode_encode (v : pyval) :
  distinct_keys v = true → decode (encode v) = listify v.
Proof.
  induction v as [| | | | |l IH|l IH|d IH] using pyval_induction;
    try reflexivity; simpl; intros Hdk.
  - f_equal. rewrite map_map. apply map_ext_Forall.
    rewrite List.Forall_forall in IH |- *. intros x Hx. apply IH; [done|].
    rewrite forallb_forall in Hdk. by apply Hdk.
  - f_equal. rewrite map_map. apply map_ext_Forall.
    rewrite List.Forall_forall in IH |- *. intros x Hx. apply IH; [done|].
    rewrite forallb_forall in Hdk. by apply Hdk.
  - apply andb_prop in Hdk as [Hnd%bool_decide_eq_true_1 Hvals].
    f_equal. rewrite map_map. simpl.
    rewrite dict_of_members_distinct
      by (by rewrite (map_values_keys (λ v, decode (encode v)))).
    apply (map_values_ext (λ v, decode (encode v)) listify).
    rewrite List.Forall_forall in IH |- *. intros kv Hkv. apply IH; [done|].
    rewrite forallb_forall in Hvals. by apply Hvals.
Qed.

(** A value read back writes the same document again. *)
Lemma encode_listify (v : pyval) : encode (listify v) = encode v.
Proof.
  induction v as [| | | | |l IH|l IH|d IH] using pyval_induction;
    try reflexivity; simpl; f_equal; rewrite map_map.
  - by apply map_ext_Forall.
  - by apply map_ext_Forall.
  - apply (map_values_ext (λ v, encode (listify v)) encode). exact IH.
Qed.

Lemma distinct_keys_listify (v : pyval) :
  distinct_keys v = true → distinct_keys (listify v) = true.
Proof.
  induction v as [| | | | |l IH|l IH|d IH] using pyval_induction;
    try done; simpl; intros Hdk.
  - rewrite forallb_forall in Hdk. apply forallb_forall.
    intros v (x & <- & Hx)%in_map_iff.
    rewrite List.Forall_forall in IH. apply IH; auto.
  - rewrite forallb_forall in Hdk. apply forallb_forall.
    intros v (x & <- & Hx)%in_map_iff.
    rewrite List.Forall_forall in IH. apply IH; auto.
  - apply andb_prop in Hdk as [Hnd%bool_decide_eq_true_1 Hvals].
    apply andb_true_intro. split.
    + apply bool_decide_eq_true_2. by rewrite (map_values_keys listify).
    + rewrite forallb_forall in Hvals. apply forallb_forall.
      intros kv (x & <- & Hx)%in_map_iff. simpl.
      rewrite List.Forall_forall in IH. apply IH; auto.
Qed.

(** The file read back: every entry written and read as a value. *)
Lemma load_dump (cache : gmap pystr pyval) :
  load (Holds (dump cache)) = Some ((λ v, decode (encode v)) <$> cache).
Proof.
  unfold dump, load, dict_of. f_equal.
  set (members := map_to_list (encode <$> cache)).
  assert (Hnd : NoDup ((λ kv : pystr * json, (kv.1, decode kv.2)) <$> members).*1).
  { rewrite <- list_fmap_compose. apply NoDup_fst_map_to_list. }
  rewrite (list_to_map_proper _ ((λ kv, (kv.1, decode kv.2)) <$> members));
    [| by rewrite reverse_Permutation | apply reverse_Permutation ].
  change (λ kv : pystr * json, (kv.1, decode kv.2))
    with (prod_map (@id pystr) decode).
  rewrite list_to_map_fmap. unfold members. rewrite list_to_map_to_list.
  by rewrite <- map_fmap_compose.
Qed.

(** The cache a run starts with has distinct keys throughout. *)
Lemma load_distinct_keys file cache :
  load file = Some cache →
  map_Forall (λ _ v, distinct_keys v = true) cache.
Proof.
  destruct file as [| |[| | | | | |members]]; simpl; try discriminate;
    intros [= <-]; try apply map_Forall_empty.
  unfold dict_of. intros address v Hv.
  apply elem_of_list_to_map_2 in Hv. rewrite elem_of_reverse in Hv.
  apply list_elem_of_fmap in Hv as ([k j] & [= -> ->] & _).
  apply distinct_keys_decode.
Qed.

(** *** What the file can hold *)

Lemma cache_writable_spec (cache : gmap pystr pyval) :
  cache_writable cache = true
  ↔ map_Forall (λ k v, str_writable k = true ∧ writable v = true) cache.
Proof.
  unfold cache_writable. rewrite forallb_forall. split.
  - intros Hall k v Hv.
    apply andb_prop, (Hall (k, v)), list_elem_of_In.
    by apply elem_of_map_to_list.
  - intros Hall [k v] Hin%list_elem_of_In%elem_of_map_to_list.
    apply andb_true_intro. exact (Hall k v Hin).
Qed.

Lemma writable_listify (v : pyval) : writable (listify v) = writable v.
Proof.
  induction v as [| | | | |l IH|l IH|d IH] using pyval_induction;
    try reflexivity; simpl.
  - induction IH as [|x l Hx _ IHl]; [reflexivity|]. simpl.
    by rewrite Hx, IHl.
  - induction IH as [|x l Hx _ IHl]; [reflexivity|]. simpl.
    by rewrite Hx, IHl.
  - induction IH as [|x l Hx _ IHl]; [reflexivity|]. simpl.
    by rewrite Hx, IHl.
Qed.

Lemma cache_writable_listify (cache : gmap pystr pyval) :
  cache_writable cache = true → cache_writable (listify <$> cache) = true.
Proof.
  rewrite !cache_writable_spec. intros Hall k v.
  rewrite lookup_fmap. destruct (cache !! k) as [x|] eqn:Hx; [|discriminate].
  intros [= <-]. rewrite writable_listify. by apply Hall.
Qed.

(** A cache the file can hold is written whole; any other leaves a file
    the next run cannot read. *)
Lemma save_writable (cache : gmap pystr pyval) :
  cache_writable cache = true → save cache = (Holds (dump cache), Return ()).
Proof. unfold save. by intros ->. Qed.

Lemma save_unwritable (cache : gmap pystr pyval) :
  cache_writable cache = false →
  save cache = (Unreadable, Raise UnicodeEncodeError)
  ∧ load (save cache).1 = Some ∅.
Proof. unfold save. by intros ->. Qed.

(** C7, as the code has it. A cache whose strings the UTF-8 file can
    hold is saved, and loading the file again gives the same addresses
    with the same values, every tuple read back as a list: the triple the
    resolver stored comes back as the list of its three components, an
    entry that came from the file comes back as it was, the reloaded
    cache writes the same file and survives another trip unchanged. *)
Theorem save_then_load (cache : gmap pystr pyval) :
  map_Forall (λ _ v, distinct_keys v = true) cache →
  cache_writable cache = true →
  ∃ file cache',
    save cache = (file, Return ())
    ∧ load file = Some cache'
    ∧ cache' = listify <$> cache
    ∧ dom cache' = dom cache
    ∧ (∀ address j1 j2 j3,
         cache !! address
         = Some (Resolver.triple (decode j1) (decode j2) (decode j3)) →
         cache' !! address = Some (PList [decode j1; decode j2; decode j3]))
    ∧ (∀ address j, cache !! address = Some (decode j) →
         cache' !! address = Some (decode j))
    ∧ save cache' = save cache
    ∧ load (save cache').1 = Some cache'.
Proof.
  intros Hdk Hw. exists (Holds (dump cache)), (listify <$> cache).
  assert (Hsame : dump (listify <$> cache) = dump cache).
  { unfold dump. rewrite <- map_fmap_compose.
    do 2 f_equal. apply map_fmap_ext. intros address v _.
    apply encode_listify. }
  assert (Hload : load (Holds (dump cache)) = Some (listify <$> cache)).
  { rewrite load_dump. f_equal. apply map_fmap_ext.
    intros address v Hv. apply decode_encode. by apply (Hdk address). }
  split; [by apply save_writable|].
  split; [exact Hload|]. split; [reflexivity|].
  split; [apply dom_fmap_L|]. split; [|split; [|split]].
  - intros address j1 j2 j3 Hv. rewrite lookup_fmap, Hv. simpl.
    by rewrite !listify_decode.
  - intros address j Hv. rewrite lookup_fmap, Hv. simpl.
    by rewrite listify_decode.
  - rewrite (save_writable cache Hw).
    rewrite (save_writable _ (cache_writable_listify cache Hw)).
    by rewrite Hsame.
  - rewrite (save_writable _ (cache_writable_listify cache Hw)).
    cbn [fst]. by rewrite Hsame.
Qed.

Import Samples.

Lemma save_then_load_witness :
  ∃ file cache',
    save two_entries = (file, Return ())
    ∧ load file = Some cache'
    ∧ cache' !! lit "first"
      = Some (PList [PStr (lit "Flat"); PStr (lit "37.2"); PStr (lit "127.2")])
    ∧ cache' !! lit "second" = Some (PList [PNone; PNone; PNone]).
Proof.
  destruct (save_then_load two_entries) as (file & cache' & Hsave & Hload & -> & _).
  - unfold two_entries. apply map_Forall_insert_2; [reflexivity|].
    apply map_Forall_insert_2; [reflexivity|]. apply map_Forall_empty.
  - vm_compute. reflexivity.
  - exists file, (listify <$> two_entries). split; [exact Hsave|].
    split; [exact Hload|]. split; reflexivity.
Defined.

(** C7 as stated fails: a place name with a surrogate on its own, which
    the resolver takes from the geocoder's answer and caches, cannot be
    written into the UTF-8 file. The write raises, the file is left cut
    off, and the next run starts with an empty cache instead of the one
    that was to be saved. *)
Lemma lone_surrogate_is_not_saved :
  Resolver.ADDRESS_CACHE
    (Resolver.get_lat_lon lone_surrogate ADDRESS fresh_run).2
  = surrogate_cache
  ∧ map_Forall (λ _ v, distinct_keys v = true) surrogate_cache
  ∧ save surrogate_cache = (Unreadable, Raise UnicodeEncodeError)
  ∧ load (save surrogate_cache).1 = Some ∅
  ∧ ¬ (∃ cache',
         load (save surrogate_cache).1 = Some cache'
         ∧ dom cache' = dom surrogate_cache).
Proof.
  assert (Hsave : save surrogate_cache = (Unreadable, Raise UnicodeEncodeError))
    by (vm_compute; reflexivity).
  split; [vm_compute; reflexivity|].
  split; [by apply map_Forall_singleton|].
  split; [exact Hsave|]. rewrite Hsave. split; [reflexivity|].
  intros (cache' & [= <-] & Hdom). unfold surrogate_cache in Hdom.
  rewrite dom_empty_L, dom_singleton_L in Hdom.
  assert (Hin : ADDRESS ∈ ({[ADDRESS]} : gset pystr)) by set_solver.
  rewrite <- Hdom in Hin. set_solver.
Qed.

End CacheFacts.

(** ** The resolver *)

Module ResolverFacts.
Import Resolver.

(** Run the binds and the tests on lists that are already known. *)
Ltac step_binds :=
  cbn [mbind result_bind truthy len elements first length pick
       Nat.ltb Nat.leb Nat.eqb].

(** *** Candidates *)

Lemma candidate_in_category marker doc :
  is_candidate doc = true →
  in_category marker doc = Return (labelled marker doc).
Proof.
  unfold is_candidate, in_category, labelled, field_of.
  destruct doc as [| | | | | | |d]; try discriminate. simpl.
  destruct (lookup_item (lit "category_name") d) as [[| | | |c| | |]|];
    try discriminate.
  reflexivity.
Qed.

Lemma candidates_filtered marker docs :
  forallb is_candidate docs = true →
  filterR (in_category marker) docs
  = Return (filter (λ doc, labelled marker doc) docs).
Proof.
  induction docs as [|doc docs IH]; [reflexivity|].
  intros [Hdoc Hdocs]%andb_prop. rewrite filter_cons. cbn [filterR].
  rewrite (bind_return _ _ _ (candidate_in_category _ _ Hdoc)).
  rewrite (bind_return _ _ _ (IH Hdocs)).
  destruct (labelled marker doc); reflexivity.
Qed.

(** What the source reads of a candidate once it is chosen. *)
Lemma candidate_located doc :
  is_candidate doc = true →
  (has_name ← contains (lit "place_name") doc;
   place_name ←
     (if (has_name : bool) then getitem doc (lit "place_name")
      else Return PNone);
   lat ← getitem doc (lit "y");
   lng ← getitem doc (lit "x");
   Return (triple place_name lat lng))
  = Return (located doc).
Proof.
  unfold is_candidate, located, field_of.
  destruct doc as [| | | | | | |d]; try discriminate. simpl.
  destruct (lookup_item (lit "category_name") d) as [[| | | |c| | |]|];
    try discriminate.
  intros [[y Hy]%bool_decide_eq_true_1 [x Hx]%bool_decide_eq_true_1]%andb_prop.
  rewrite Hy, Hx.
  destruct (lookup_item (lit "place_name") d) as [name|]; reflexivity.
Qed.

Lemma candidate_coordinates doc :
  is_candidate doc = true →
  (lat ← getitem doc (lit "y");
   lng ← getitem doc (lit "x");
   Return (triple PNone lat lng))
  = Return (triple PNone (field_of doc (lit "y")) (field_of doc (lit "x"))).
Proof.
  unfold is_candidate, field_of.
  destruct doc as [| | | | | | |d]; try discriminate. simpl.
  destruct (lookup_item (lit "category_name") d) as [[| | | |c| | |]|];
    try discriminate.
  intros [[y Hy]%bool_decide_eq_true_1 [x Hx]%bool_decide_eq_true_1]%andb_prop.
  by rewrite Hy, Hx.
Qed.

Lemma filter_head_candidate marker docs doc rest :
  forallb is_candidate docs = true →
  filter (λ doc, labelled marker doc) docs = doc :: rest →
  is_candidate doc = true ∧ doc ∈ docs ∧ labelled marker doc = true.
Proof.
  intros Hall Hfilter.
  assert (Hin : doc ∈ filter (λ doc, labelled marker doc) docs)
    by (rewrite Hfilter; by left).
  apply list_elem_of_filter in Hin as [Hlab Hin].
  split; [|split; [exact Hin|by apply Is_true_true]].
  rewrite forallb_forall in Hall. by apply Hall, list_elem_of_In.
Qed.

(** On a list of candidates the [try] of [get_lat_lon] returns the tiered
    choice. *)
Lemma select_candidates data docs :
  getitem data (lit "documents") = Return (PList docs) →
  forallb is_candidate docs = true →
  select data = Return (tiered_choice docs).
Proof.
  intros Hdocs Hall. unfold select, tiered_choice.
  rewrite (bind_return _ _ _ Hdocs).
  destruct docs as [|first_doc docs']; [reflexivity|].
  set (docs := first_doc :: docs') in *.
  step_binds.
  rewrite (bind_return _ _ _ (candidates_filtered APT docs Hall)).
  destruct (filter (λ doc, labelled APT doc) docs) as [|doc rest] eqn:Hapt.
  - step_binds.
    rewrite (bind_return _ _ _
               (candidates_filtered RESIDENTIAL docs Hall)).
    destruct (filter (λ doc, labelled RESIDENTIAL doc) docs)
      as [|doc rest] eqn:Hres.
    + step_binds. apply candidate_coordinates.
      by apply andb_prop in Hall as [? _].
    + step_binds. apply candidate_located.
      by destruct (filter_head_candidate _ _ _ _ Hall Hres).
  - step_binds. apply candidate_located.
    by destruct (filter_head_candidate _ _ _ _ Hall Hapt).
Qed.

(** *** The tiers *)

Lemma tiered_choice_first_tier marker docs :
  (∃ doc, doc ∈ docs ∧ labelled marker doc = true) →
  ∃ doc rest,
    filter (λ doc, labelled marker doc) docs = doc :: rest
    ∧ doc ∈ docs ∧ labelled marker doc = true.
Proof.
  intros (doc & Hin & Hlab).
  assert (Hfil : doc ∈ filter (λ doc, labelled marker doc) docs).
  { apply list_elem_of_filter. split; [by apply Is_true_true|exact Hin]. }
  destruct (filter (λ doc, labelled marker doc) docs) as [|doc' rest] eqn:Heq;
    [by apply not_elem_of_nil in Hfil|].
  exists doc', rest. split; [reflexivity|].
  assert (Hin' : doc' ∈ filter (λ doc, labelled marker doc) docs)
    by (rewrite Heq; by left).
  apply list_elem_of_filter in Hin' as [Hlab' Hin'].
  split; [exact Hin'|by apply Is_true_true].
Qed.

Lemma filter_none marker docs :
  (∀ doc, doc ∈ docs → labelled marker doc = false) →
  filter (λ doc, labelled marker doc) docs = [].
Proof.
  intros Hnone. induction docs as [|doc docs IH]; [reflexivity|].
  rewrite filter_cons, (Hnone doc) by (by left). simpl.
  apply IH. intros doc' Hin. apply Hnone. by right.
Qed.

(** The choice among candidates listed in any order. *)
Lemma tiered_choice_tiers docs :
  ((∃ doc, doc ∈ docs ∧ labelled APT doc = true) →
   ∃ doc, doc ∈ docs ∧ labelled APT doc = true
          ∧ tiered_choice docs = located doc)
  ∧ ((∀ doc, doc ∈ docs → labelled APT doc = false) →
     (∃ doc, doc ∈ docs ∧ labelled RESIDENTIAL doc = true) →
     ∃ doc, doc ∈ docs ∧ labelled RESIDENTIAL doc = true
            ∧ tiered_choice docs = located doc)
  ∧ ((∀ doc, doc ∈ docs →
        labelled APT doc = false ∧ labelled RESIDENTIAL doc = false) →
     ∀ doc rest, docs = doc :: rest →
       tiered_choice docs
       = triple PNone (field_of doc (lit "y")) (field_of doc (lit "x")))
  ∧ (docs = [] → tiered_choice docs = triple PNone PNone PNone).
Proof.
  unfold tiered_choice. split; [|split; [|split]].
  - intros Hsome.
    destruct (tiered_choice_first_tier APT docs Hsome)
      as (doc & rest & -> & Hin & Hlab).
    by exists doc.
  - intros Hnone Hsome. rewrite (filter_none APT docs Hnone).
    destruct (tiered_choice_first_tier RESIDENTIAL docs Hsome)
      as (doc & rest & -> & Hin & Hlab).
    by exists doc.
  - intros Hnone doc rest Hdocs.
    rewrite (filter_none APT docs), (filter_none RESIDENTIAL docs);
      [by rewrite Hdocs| |]; intros d Hd; by destruct (Hnone d Hd).
  - by intros ->.
Qed.

(** C3. Asked about an address it has not cached, and answered with a list
    of candidates, the resolver returns and caches the tiered choice: a
    candidate labelled apartment if the list has one, wherever it stands
    in the list; otherwise one labelled residential; otherwise the
    coordinates of the first candidate with no place name; and three
    nulls for an empty list. *)
Theorem tiered_selection geocoder address run j docs :
  ADDRESS_CACHE run !! address = None →
  geocoder (posted run) address = PostText (Some j) →
  getitem (decode j) (lit "documents") = Return (PList docs) →
  forallb is_candidate docs = true →
  ∃ result,
    get_lat_lon geocoder address run
    = (result,
       mkRun (<[address := result]> (ADDRESS_CACHE run))
             (posted run ++ [address]) (printed run))
    ∧ result = tiered_choice docs
    ∧ ((∃ doc, doc ∈ docs ∧ labelled APT doc = true) →
       (∃ doc, doc ∈ docs ∧ labelled APT doc = true ∧ result = located doc)
       ∧ ∀ docs', docs' ≡ₚ docs →
           ∃ doc, doc ∈ docs ∧ labelled APT doc = true
                  ∧ tiered_choice docs' = located doc)
    ∧ ((∀ doc, doc ∈ docs → labelled APT doc = false) →
       (∃ doc, doc ∈ docs ∧ labelled RESIDENTIAL doc = true) →
       ∃ doc, doc ∈ docs ∧ labelled RESIDENTIAL doc = true
              ∧ result = located doc)
    ∧ ((∀ doc, doc ∈ docs →
          labelled APT doc = false ∧ labelled RESIDENTIAL doc = false) →
       ∀ doc rest, docs = doc :: rest →
         result = triple PNone (field_of doc (lit "y")) (field_of doc (lit "x")))
    ∧ (docs = [] → result = triple PNone PNone PNone).
Proof.
  intros Hmiss Hreply Hdocs Hall. exists (tiered_choice docs).
  destruct (tiered_choice_tiers docs) as (Hapt & Hres & Hfirst & Hnil).
  split; [|split; [reflexivity|split; [|split; [|split]]]]; try assumption.
  - unfold get_lat_lon, attempt. rewrite Hmiss, Hreply.
    cbn [loads_fetch_post mbind result_bind].
    by rewrite (select_candidates _ _ Hdocs Hall).
  - intros Hsome. split; [by apply Hapt|].
    intros docs' Hperm.
    destruct (proj1 (tiered_choice_tiers docs')) as (doc & Hin & Hlab & Heq).
    { destruct Hsome as (doc & Hin & Hlab). exists doc.
      split; [by rewrite Hperm|exact Hlab]. }
    exists doc. split; [by rewrite <- Hperm|]. by split.
Qed.


(** *** Where the coordinates of a result come from *)

Lemma filterR_subset {A} (keep : A → result bool) (xs ys : list A) :
  filterR keep xs = Return ys → ∀ y, y ∈ ys → y ∈ xs.
Proof.
  revert ys. induction xs as [|x xs IH]; cbn [filterR]; intros ys.
  - intros [= <-] y Hy. by apply not_elem_of_nil in Hy.
  - destruct (keep x) as [b|]; [|discriminate]. cbn [mbind result_bind].
    destruct (filterR keep xs) as [zs|]; [|discriminate].
    cbn [mbind result_bind]. intros [= <-] y Hy.
    destruct b; [apply elem_of_cons in Hy as [->|Hy]|];
      (by left) || (right; by apply (IH zs)).
Qed.

Lemma first_elements v doc xs :
  first v = Return doc → elements v = Return xs → doc ∈ xs.
Proof.
  destruct v as [| | | |[|c s]|[|x l]|[|x l]|d]; simpl; try discriminate;
    intros [= <-] [= <-]; by left.
Qed.

(** A picked result holds the [y] and the [x] of one document. *)
Lemma pick_shape all_documents xs documents r :
  elements all_documents = Return xs →
  (∀ doc, doc ∈ documents → doc ∈ xs) →
  pick all_documents documents = Return r →
  ∃ doc place_name lat lng,
    doc ∈ xs
    ∧ getitem doc (lit "y") = Return lat
    ∧ getitem doc (lit "x") = Return lng
    ∧ (place_name = PNone
       ∨ getitem doc (lit "place_name") = Return place_name)
    ∧ r = triple place_name lat lng.
Proof.
  intros Hxs Hsub. unfold pick.
  destruct documents as [|doc rest]; cbn [length Nat.ltb Nat.leb].
  - destruct (first all_documents) as [doc|] eqn:Hfirst; [|discriminate].
    cbn [mbind result_bind].
    destruct (getitem doc (lit "y")) as [lat|] eqn:Hy; [|discriminate].
    destruct (getitem doc (lit "x")) as [lng|] eqn:Hx; [|discriminate].
    cbn [mbind result_bind]. intros [= <-].
    exists doc, PNone, lat, lng.
    split; [by eapply first_elements|]. repeat split; auto.
  - cbn [first mbind result_bind].
    destruct (contains (lit "place_name") doc) as [has_name|]; [|discriminate].
    cbn [mbind result_bind].
    destruct (if has_name then getitem doc (lit "place_name") else Return PNone)
      as [place_name|] eqn:Hname; [|discriminate].
    cbn [mbind result_bind].
    destruct (getitem doc (lit "y")) as [lat|] eqn:Hy; [|discriminate].
    destruct (getitem doc (lit "x")) as [lng|] eqn:Hx; [|discriminate].
    cbn [mbind result_bind]. intros [= <-].
    exists doc, place_name, lat, lng.
    split; [apply Hsub; by left|]. repeat split; auto.
    destruct has_name; [by right|left; congruence].
Qed.

(** So is every result of the [try]: three nulls, or the [y] and the [x]
    of one document of the reply. *)
Lemma select_shape data r :
  select data = Return r →
  r = triple PNone PNone PNone
  ∨ ∃ all_documents xs doc place_name lat lng,
      getitem data (lit "documents") = Return all_documents
      ∧ elements all_documents = Return xs
      ∧ doc ∈ xs
      ∧ getitem doc (lit "y") = Return lat
      ∧ getitem doc (lit "x") = Return lng
      ∧ (place_name = PNone
         ∨ getitem doc (lit "place_name") = Return place_name)
      ∧ r = triple place_name lat lng.
Proof.
  unfold select.
  destruct (getitem data (lit "documents")) as [all_documents|] eqn:Hall;
    [|discriminate].
  cbn [mbind result_bind].
  destruct (truthy all_documents);
    [|cbn [mbind result_bind]; intros [= <-]; by left].
  destruct (len all_documents) as [n|]; [|discriminate].
  cbn [mbind result_bind].
  destruct (0 <? n)%nat; [|intros [= <-]; by left].
  destruct (elements all_documents) as [xs|] eqn:Hxs; [|discriminate].
  cbn [mbind result_bind].
  destruct (filterR (in_category APT) xs) as [apartments|] eqn:Hapt;
    [|discriminate].
  cbn [mbind result_bind].
  intros Hpick. right. exists all_documents, xs.
  destruct (length apartments =? 0)%nat.
  - destruct (filterR (in_category RESIDENTIAL) xs) as [residences|] eqn:Hres;
      [|discriminate].
    cbn [mbind result_bind] in Hpick.
    destruct (pick_shape _ _ _ _ Hxs (filterR_subset _ _ _ Hres) Hpick)
      as (doc & place_name & lat & lng & ?).
    exists doc, place_name, lat, lng. tauto.
  - cbn [mbind result_bind] in Hpick.
    destruct (pick_shape _ _ _ _ Hxs (filterR_subset _ _ _ Hapt) Hpick)
      as (doc & place_name & lat & lng & ?).
    exists doc, place_name, lat, lng. tauto.
Qed.

(** *** What the cache holds *)

Lemma distinct_keys_item key d v :
  forallb (λ kv, distinct_keys kv.2) d = true →
  lookup_item key d = Some v → distinct_keys v = true.
Proof.
  induction d as [|[k x] d IH]; simpl; [discriminate|].
  intros [Hx Hd]%andb_prop. case_bool_decide; [by intros [= <-]|by apply IH].
Qed.

Lemma distinct_keys_getitem v key x :
  distinct_keys v = true → getitem v key = Return x → distinct_keys x = true.
Proof.
  destruct v as [| | | | | | |d]; try discriminate. simpl.
  intros [_ Hd]%andb_prop.
  destruct (lookup_item key d) as [y|] eqn:Hy; [|discriminate].
  intros [= <-]. by eapply distinct_keys_item.
Qed.

Lemma distinct_keys_elements v xs x :
  distinct_keys v = true → elements v = Return xs → x ∈ xs →
  distinct_keys x = true.
Proof.
  destruct v as [| | | |s|l|l|d]; simpl; try discriminate;
    intros Hv [= <-] Hx.
  - by apply list_elem_of_fmap in Hx as (c & -> & _).
  - rewrite forallb_forall in Hv. by apply Hv, list_elem_of_In.
  - rewrite forallb_forall in Hv. by apply Hv, list_elem_of_In.
  - by apply list_elem_of_fmap in Hx as (kv & -> & _).
Qed.

(** What the resolver makes of a decoded answer has distinct keys
    throughout, and so has every cache it adds to. *)
Lemma select_distinct_keys data r :
  distinct_keys data = true → select data = Return r →
  distinct_keys r = true.
Proof.
  intros Hdata Hselect.
  destruct (select_shape _ _ Hselect)
    as [->|(all_documents & xs & doc & place_name & lat & lng
            & Hall & Hxs & Hdoc & Hy & Hx & Hname & ->)]; [reflexivity|].
  assert (Hd : distinct_keys doc = true).
  { eapply distinct_keys_elements; [|exact Hxs|exact Hdoc].
    by eapply distinct_keys_getitem. }
  simpl. rewrite (distinct_keys_getitem _ _ _ Hd Hy).
  rewrite (distinct_keys_getitem _ _ _ Hd Hx).
  destruct Hname as [->|Hname]; [reflexivity|].
  by rewrite (distinct_keys_getitem _ _ _ Hd Hname).
Qed.

Lemma get_lat_lon_distinct_keys geocoder address run :
  map_Forall (λ _ v, distinct_keys v = true) (ADDRESS_CACHE run) →
  map_Forall (λ _ v, distinct_keys v = true)
    (ADDRESS_CACHE (get_lat_lon geocoder address run).2).
Proof.
  intros Hcache. unfold get_lat_lon.
  destruct (ADDRESS_CACHE run !! address); [exact Hcache|].
  unfold attempt.
  destruct (geocoder (posted run) address) as [e|[j|]];
    cbn [loads_fetch_post mbind result_bind]; try exact Hcache.
  destruct (select (decode j)) as [r|e] eqn:Hselect; [|exact Hcache].
  simpl. apply map_Forall_insert_2; [|exact Hcache].
  eapply select_distinct_keys; [|exact Hselect].
  apply CacheFacts.distinct_keys_decode.
Qed.

(** C4, as the code has it. The resolver takes latitude and longitude
    from one and the same document, or leaves both null. So a result has
    both or neither whenever the documents of the reply do, and a cache
    whose entries have both or neither keeps that property. *)
Theorem coordinates_come_paired geocoder address run :
  map_Forall (λ _ v, paired v = true) (ADDRESS_CACHE run) →
  reply_paired (geocoder (posted run) address) →
  paired (get_lat_lon geocoder address run).1 = true
  ∧ map_Forall (λ _ v, paired v = true)
      (ADDRESS_CACHE (get_lat_lon geocoder address run).2).
Proof.
  intros Hcache Hreply. unfold get_lat_lon.
  destruct (ADDRESS_CACHE run !! address) as [cached|] eqn:Hhit.
  - split; [by apply (Hcache address)|exact Hcache].
  - unfold attempt.
    destruct (loads_fetch_post (geocoder (posted run) address))
      as [data|e] eqn:Hdata; cbn [mbind result_bind]; [|by split].
    destruct (select data) as [r|e] eqn:Hselect; [|by split].
    assert (Hr : paired r = true).
    { destruct (select_shape _ _ Hselect)
        as [->|(all_documents & xs & doc & place_name & lat & lng
                & Hall & Hxs & Hdoc & Hy & Hx & _ & ->)]; [reflexivity|].
      pose proof (Hreply data all_documents xs Hdata Hall Hxs) as Hpaired.
      rewrite forallb_forall in Hpaired.
      specialize (Hpaired doc (proj1 (list_elem_of_In _ _) Hdoc)).
      unfold coordinates_paired in Hpaired. by rewrite Hy, Hx in Hpaired. }
    split; [exact Hr|]. simpl. by apply map_Forall_insert_2.
Qed.

(** An entry of the cache stays as it is through every later lookup. *)
Lemma get_lat_lon_keeps_entries geocoder address run other v :
  ADDRESS_CACHE run !! other = Some v →
  ADDRESS_CACHE (get_lat_lon geocoder address run).2 !! other = Some v.
Proof.
  intros Hother. unfold get_lat_lon.
  destruct (ADDRESS_CACHE run !! address) eqn:Hhit; [exact Hother|].
  destruct (attempt _); [|exact Hother]. simpl.
  rewrite lookup_insert_ne; [exact Hother|congruence].
Qed.


Import Samples.

Lemma tiered_selection_witness :
  (get_lat_lon knows_three ADDRESS fresh_run).1
  = triple (PStr (lit "Flat")) (PStr (lit "37.2")) (PStr (lit "127.2")).
Proof.
  destruct (tiered_selection knows_three ADDRESS fresh_run _
              (decode <$> shop_flat_house) eq_refl eq_refl eq_refl eq_refl)
    as (result & -> & -> & _).
  reflexivity.
Defined.


Lemma coordinates_come_paired_witness :
  paired (get_lat_lon knows_three ADDRESS fresh_run).1 = true.
Proof.
  apply (coordinates_come_paired knows_three ADDRESS fresh_run).
  - apply map_Forall_empty.
  - intros data all_documents xs [= <-] [= <-] [= <-]. reflexivity.
Defined.

(** C4 as stated fails: a candidate with a longitude and a null latitude
    gives a result, returned and cached, with exactly one of the two. *)
Lemma one_coordinate_alone :
  ∃ run',
    get_lat_lon half_located ADDRESS fresh_run
    = (triple PNone PNone (PStr (lit "127.0")), run')
    ∧ ADDRESS_CACHE run' !! ADDRESS
      = Some (triple PNone PNone (PStr (lit "127.0")))
    ∧ paired (triple PNone PNone (PStr (lit "127.0"))) = false.
Proof. eexists. split; [reflexivity|]. split; reflexivity. Qed.


End ResolverFacts.

(** ** The loop of [main] *)

Module MainFacts.
Import Collector Resolver Main.

Lemma field_present (x : record) name :
  is_Some (x !! name) → ∃ v, field x name = Return v.
Proof. intros [v Hv]. exists v. unfold field. by rewrite Hv. Qed.

(** A record with the fields of an entry makes one, whatever the result
    of the resolution. *)
Lemma entry_of_returns (sggCd : Region) (x : record)
    (address : pystr) (place_name lat lng : pyval) :
  forallb (λ name, bool_decide (is_Some (x !! name))) entry_fields = true →
  ∃ entry,
    entry_of sggCd (<[lit "ADDRESS" := address]> x) place_name lat lng
    = Return entry
    ∧ e_address entry = address ∧ e_lat entry = lat ∧ e_lng entry = lng.
Proof.
  intros Hfields. rewrite forallb_forall in Hfields.
  assert (Hget : ∀ name, In name entry_fields →
            ∃ v, field (<[lit "ADDRESS" := address]> x) name = Return v).
  { intros name Hin. apply field_present.
    rewrite lookup_insert_ne.
    - exact (bool_decide_eq_true_1 _ (Hfields name Hin)).
    - intros <-. revert Hin. vm_compute. intuition discriminate. }
  assert (Haddress : field (<[lit "ADDRESS" := address]> x) (lit "ADDRESS")
                     = Return address).
  { unfold field. by rewrite lookup_insert_eq. }
  destruct (Hget (lit "aptNm")) as [aptNm HaptNm]; [vm_compute; tauto|].
  destruct (Hget (lit "dealYear")) as [dealYear HdealYear]; [vm_compute; tauto|].
  destruct (Hget (lit "dealMonth")) as [dealMonth HdealMonth];
    [vm_compute; tauto|].
  destruct (Hget (lit "dealDay")) as [dealDay HdealDay]; [vm_compute; tauto|].
  destruct (Hget (lit "excluUseAr")) as [excluUseAr HexcluUseAr];
    [vm_compute; tauto|].
  destruct (Hget (lit "dealingGbn")) as [dealingGbn HdealingGbn];
    [vm_compute; tauto|].
  destruct (Hget (lit "floor")) as [floor Hfloor]; [vm_compute; tauto|].
  destruct (Hget (lit "dealAmount")) as [dealAmount HdealAmount];
    [vm_compute; tauto|].
  unfold entry_of.
  rewrite Haddress, HaptNm, HdealYear, HdealMonth, HdealDay, HexcluUseAr,
    HdealingGbn, Hfloor, HdealAmount.
  destruct place_name; cbn; eexists; (split; [reflexivity|done]).
Qed.

Lemma truthy_present v : str_or_none v = true → truthy v = present v.
Proof. by destruct v. Qed.

(** C9. A record that has the fields of an entry, and whose address
    resolves to string-or-null coordinates, is appended to [data] exactly
    when latitude and longitude are both there, not null and not empty;
    otherwise the loop goes on without it and without an exception. In
    particular a resolution that gave three nulls leaves the record out. *)
Theorem record_kept_iff_located (geocoder : Geocoder) (sggCd : Region)
    (st : State) (x : record) (address : pystr) (resolved : pyval)
    (run' : Run) (place_name lat lng : pyval) :
  address_of sggCd x = Return address →
  forallb (λ name, bool_decide (is_Some (x !! name))) entry_fields = true →
  get_lat_lon geocoder address (run st) = (resolved, run') →
  unpack3 resolved = Return (place_name, lat, lng) →
  str_or_none lat = true → str_or_none lng = true →
  ∃ st',
    process_record geocoder sggCd st x = Return st'
    ∧ run st' = run'
    ∧ ((∃ entry, data st' = data st ++ [entry])
       ↔ present lat = true ∧ present lng = true)
    ∧ (data st' = data st
       ∨ ∃ entry, data st' = data st ++ [entry]
                  ∧ e_address entry = address
                  ∧ e_lat entry = lat ∧ e_lng entry = lng)
    ∧ (lat = PNone ∨ lng = PNone → data st' = data st).
Proof.
  intros Haddress Hfields Hresolved Hunpack Hlat Hlng.
  unfold process_record.
  rewrite (bind_return _ _ _ Haddress), Hresolved.
  rewrite (bind_return _ _ _ Hunpack).
  rewrite (truthy_present _ Hlat), (truthy_present _ Hlng).
  destruct (present lat && present lng) eqn:Hboth.
  - destruct (entry_of_returns sggCd x address place_name lat lng Hfields)
      as (entry & -> & Hfrom & Hy & Hx).
    cbn [mbind result_bind]. eexists. split; [reflexivity|]. simpl.
    apply andb_prop in Hboth as [Hp Hq].
    split; [reflexivity|]. split; [split; eauto|].
    split; [right; by exists entry|].
    intros [-> | ->]; discriminate.
  - eexists. split; [reflexivity|]. simpl. split; [reflexivity|].
    split; [|split; [by left|done]].
    split.
    + intros [entry Hentry]. apply (f_equal length) in Hentry.
      rewrite length_app in Hentry. simpl in Hentry. lia.
    + intros [Hp Hq]. by rewrite Hp, Hq in Hboth.
Qed.

Import Samples.

Lemma record_kept_iff_located_witness :
  ∃ st',
    process_record knows_three JONGNO_GU first_state trade = Return st'
    ∧ length (data st') = 1%nat.
Proof.
  destruct (record_kept_iff_located knows_three JONGNO_GU first_state trade
              ADDRESS
              (triple (PStr (lit "Flat")) (PStr (lit "37.2")) (PStr (lit "127.2")))
              (get_lat_lon knows_three ADDRESS fresh_run).2
              (PStr (lit "Flat")) (PStr (lit "37.2")) (PStr (lit "127.2")))
    as (st' & Hst' & _ & Hiff & _); try reflexivity.
  exists st'. split; [exact Hst'|].
  destruct (proj2 Hiff) as [entry ->]; [by split|]. reflexivity.
Defined.

End MainFacts.

(** * Further properties *)

(** ** Records *)

Module RecordFacts.
Import Collector Whole.

Lemma lstrip_split (s : pystr) :
  ∃ ws, s = ws ++ lstrip s ∧ forallb is_space ws = true.
Proof.
  induction s as [|c s (ws & Hs & Hws)]; [by exists []|]. simpl.
  destruct (is_space c) eqn:Hc.
  - exists (c :: ws). simpl. rewrite Hc, Hws. split; [by f_equal|done].
  - by exists [].
Qed.

Lemma lstrip_head (s : pystr) c rest :
  lstrip s = c :: rest → is_space c = false.
Proof.
  induction s as [|a s IH]; simpl; [discriminate|].
  destruct (is_space a) eqn:Ha; [exact IH|]. by intros [= <- _].
Qed.

Lemma lstrip_id (s : pystr) c rest :
  s = c :: rest → is_space c = false → lstrip s = s.
Proof. intros -> Hc. simpl. by rewrite Hc. Qed.

Lemma rstrip_split (s : pystr) :
  ∃ ws, s = rstrip s ++ ws ∧ forallb is_space ws = true.
Proof.
  unfold rstrip. destruct (lstrip_split (reverse s)) as (ws & Hs & Hws).
  exists (reverse ws). split.
  - rewrite <- reverse_app, <- Hs. by rewrite reverse_involutive.
  - rewrite forallb_forall in Hws |- *. intros c Hc. apply Hws.
    apply list_elem_of_In. apply list_elem_of_In in Hc.
    by apply elem_of_reverse.
Qed.

Lemma rstrip_last (s : pystr) c :
  last (rstrip s) = Some c → is_space c = false.
Proof.
  unfold rstrip. rewrite last_reverse.
  destruct (lstrip (reverse s)) as [|a rest] eqn:Hl; [discriminate|].
  simpl. intros [= <-]. by eapply lstrip_head.
Qed.

(** Trailing whitespace taken off, a string that started with another
    character still starts with it. *)
Lemma rstrip_head (s : pystr) c rest :
  s = c :: rest → is_space c = false → ∃ rest', rstrip s = c :: rest'.
Proof.
  intros Hs Hc. destruct (rstrip_split s) as (ws & Hsplit & Hws).
  destruct (rstrip s) as [|a rest'] eqn:Hr.
  - simpl in Hsplit. subst ws. rewrite Hs in Hws. simpl in Hws.
    by rewrite Hc in Hws.
  - rewrite Hs in Hsplit. injection Hsplit as -> _. eauto.
Qed.

Lemma strip_trimmed (s : pystr) : trimmed (strip s) = true.
Proof.
  unfold trimmed, strip. apply andb_true_intro. split.
  - destruct (lstrip s) as [|c rest] eqn:Hl; [reflexivity|].
    destruct (rstrip_head (c :: rest) c rest eq_refl) as [rest' ->];
      [by eapply lstrip_head|].
    by rewrite (lstrip_head _ _ _ Hl).
  - destruct (last (rstrip (lstrip s))) as [c|] eqn:Hlast; [|reflexivity].
    by rewrite (rstrip_last _ _ Hlast).
Qed.

Lemma rstrip_id (s : pystr) c :
  last s = Some c → is_space c = false → rstrip s = s.
Proof.
  intros Hlast Hc. unfold rstrip.
  destruct (reverse s) as [|a rest] eqn:Hrev.
  - apply (f_equal reverse) in Hrev. rewrite reverse_involutive in Hrev.
    by subst.
  - assert (a = c) as ->.
    { rewrite <- (reverse_involutive s), Hrev, last_reverse in Hlast.
      by injection Hlast. }
    simpl. rewrite Hc. rewrite <- Hrev. apply reverse_involutive.
Qed.

Lemma strip_id (s : pystr) : trimmed s = true → strip s = s.
Proof.
  unfold trimmed, strip. intros [Hhead Hlast]%andb_prop.
  destruct s as [|c rest]; [reflexivity|].
  apply negb_true_iff in Hhead.
  rewrite (lstrip_id (c :: rest) c rest eq_refl Hhead).
  destruct (last (c :: rest)) as [z|] eqn:Hz.
  - apply negb_true_iff in Hlast. by eapply rstrip_id.
  - by apply last_None in Hz.
Qed.

(** What a record holds under a key: the text of the last child with that
    tag. *)
Lemma foldl_insert_lookup (f : Element → pystr) (cs : list Element)
    (d : record) (k : pystr) :
  foldl (λ item_dict child, <[tag child := f child]> item_dict) d cs !! k
  = match last (filter (λ c, tag c = k) cs) with
    | Some c => Some (f c)
    | None => d !! k
    end.
Proof.
  induction cs as [|c cs IH] using rev_ind; [reflexivity|].
  rewrite foldl_app, filter_app. simpl.
  destruct (decide (tag c = k)) as [Hk|Hk].
  - rewrite filter_cons_True by done. rewrite filter_nil, last_snoc.
    rewrite <- Hk. by rewrite lookup_insert_eq.
  - rewrite filter_cons_False by done. rewrite filter_nil, app_nil_r.
    rewrite lookup_insert_ne by done. exact IH.
Qed.

Lemma field_text_trimmed (child : Element) :
  trimmed (field_text child) = true.
Proof.
  unfold field_text. destruct (text child) as [t|]; [|reflexivity].
  case_bool_decide; [reflexivity|apply strip_trimmed].
Qed.

Lemma item_to_dict_lookup (item : Element) (k : pystr) :
  item_to_dict item !! k
  = field_text <$> last (filter (λ c, tag c = k) (children item)).
Proof.
  unfold item_to_dict. rewrite foldl_insert_lookup.
  destruct (last _); [reflexivity|apply lookup_empty].
Qed.

(** What [strip] takes off is whitespace, at the two ends. *)
Lemma strip_split (t : pystr) :
  ∃ before after,
    t = before ++ strip t ++ after
    ∧ forallb is_space before = true ∧ forallb is_space after = true.
Proof.
  destruct (lstrip_split t) as (before & Ht & Hbefore).
  destruct (rstrip_split (lstrip t)) as (after & Hl & Hafter).
  exists before, after. unfold strip. by rewrite <- Hl.
Qed.

(** X1. A record has one key for each tag among the children of its item,
    and under a key the text of the last child with that tag, without the
    whitespace at its two ends: the value has no whitespace at either
    end, and the text is the value between two runs of whitespace. A
    child without text gives the empty string. *)
Theorem record_holds_last_child (item : Element) (k : pystr) :
  (is_Some (item_to_dict item !! k) ↔ k ∈ tag <$> children item)
  ∧ ∀ c, last (filter (λ c, tag c = k) (children item)) = Some c →
      ∃ v,
        item_to_dict item !! k = Some v
        ∧ trimmed v = true
        ∧ match text c with
          | Some t =>
              ∃ before after,
                t = before ++ v ++ after
                ∧ forallb is_space before = true
                ∧ forallb is_space after = true
          | None => v = []
          end.
Proof.
  pose proof (item_to_dict_lookup item k) as Hlookup. split.
  - rewrite Hlookup, list_elem_of_fmap. split.
    + intros [v Hv].
      destruct (last (filter (λ c, tag c = k) (children item)))
        as [c|] eqn:Hlast; [|discriminate].
      exists c. apply last_Some_elem_of, list_elem_of_filter in Hlast.
      destruct Hlast as [Htag Hin]. by split.
    + intros (c & -> & Hin).
      assert (Hc : c ∈ filter (λ c', tag c' = tag c) (children item))
        by (by apply list_elem_of_filter).
      destruct (last (filter (λ c', tag c' = tag c) (children item)))
        as [c'|] eqn:Hlast; [by eexists|].
      apply last_None in Hlast. rewrite Hlast in Hc.
      by apply not_elem_of_nil in Hc.
  - intros c Hlast. rewrite Hlookup, Hlast. exists (field_text c).
    split; [reflexivity|]. split; [apply field_text_trimmed|].
    unfold field_text. destruct (text c) as [t|]; [|reflexivity].
    case_bool_decide as Ht; [|apply strip_split].
    subst t. by exists [], [].
Qed.

Lemma item_to_dict_trimmed (item : Element) :
  map_Forall (λ _ v, trimmed v = true) (item_to_dict item).
Proof.
  intros k v Hv. rewrite item_to_dict_lookup in Hv.
  destruct (last _) as [c|]; [|discriminate].
  injection Hv as <-. apply field_text_trimmed.
Qed.

Lemma parse_items_trimmed (root : Element) :
  Forall (λ x : record, map_Forall (λ _ v, trimmed v = true) x)
         (parse_items root).
Proof.
  unfold parse_items. apply Forall_fmap, Forall_forall.
  intros item _. apply item_to_dict_trimmed.
Qed.

(** *** What the collector returns *)

Lemma mapR_Return {A B} (f : A → result B) xs ys :
  mapR f xs = Return ys → Forall2 (λ x y, f x = Return y) xs ys.
Proof.
  revert ys. induction xs as [|x xs IH]; simpl; intros ys.
  - intros [= <-]. constructor.
  - destruct (f x) as [y|] eqn:Hx; [|discriminate]. cbn.
    destruct (mapR f xs) as [ys'|]; [|discriminate]. cbn.
    intros [= <-]. constructor; [exact Hx|by apply IH].
Qed.

Lemma mapR_ext {A B} (f g : A → result B) xs :
  (∀ x, x ∈ xs → f x = g x) → mapR f xs = mapR g xs.
Proof.
  induction xs as [|x xs IH]; intros Hext; [reflexivity|]. simpl.
  rewrite (Hext x) by (by left). rewrite IH; [reflexivity|].
  intros y Hy. apply Hext. by right.
Qed.

(** A page that returns is a failed one, with one line and no record, or
    a parsed one, with its records and no line. *)
Lemma fetch_page_shape session params lines page_data :
  fetch_page session params = Return (lines, page_data) →
  (page_data = [] ∧ ∃ e, lines = [e] ∧ is_diagnostic e = true)
  ∨ (lines = []
     ∧ ∃ root, session params = Response 200 (Some root)
               ∧ page_data = parse_items root).
Proof.
  unfold fetch_page.
  destruct (session params) as [|status body]; [discriminate|].
  destruct (Z.eqb_spec status 200) as [->|Hne]; simpl.
  - destruct body as [root|]; [|discriminate]. cbn.
    destruct (api_error root).
    + destruct (find root (lit "resultMsg")); [|discriminate].
      intros [= <- <-]. left. split; [reflexivity|]. eauto.
    + intros [= <- <-]. right. split; [reflexivity|]. eauto.
  - intros [= <- <-]. left. split; [reflexivity|]. eauto.
Qed.

(** The two ways the collector returns. *)
Lemma collect_shape session api_key lawd_cd deal_ymd num_of_rows c :
  let params := first_params api_key lawd_cd deal_ymd num_of_rows in
  fetch_all_apt_trade_data_async session api_key lawd_cd deal_ymd num_of_rows
  = Return c →
  ∃ status root,
    session params = Response status (Some root)
    ∧ ((find root (lit "totalCount") = None
        ∧ c = mkCollected [] [params] [NoTotalCount])
       ∨ ∃ tc total_count total_pages results,
           find root (lit "totalCount") = Some tc
           ∧ py_int (text tc) = Return total_count
           ∧ ceil_div total_count num_of_rows = Return total_pages
           ∧ mapR (fetch_page session) (later_pages params total_pages)
             = Return results
           ∧ c = mkCollected
                   (parse_items root ++ concat (snd <$> results))
                   (params :: later_pages params total_pages)
                   (concat (fst <$> results)
                    ++ [Collected lawd_cd deal_ymd
                          (length (parse_items root
                                   ++ concat (snd <$> results)))])).
Proof.
  intros params. unfold fetch_all_apt_trade_data_async. fold params.
  destruct (session params) as [|status [root|]]; try discriminate. cbn.
  intros Hc. exists status, root. split; [reflexivity|].
  destruct (find root (lit "totalCount")) as [tc|].
  - right.
    destruct (py_int (text tc)) as [total_count|] eqn:Hint; [|discriminate].
    cbn in Hc.
    destruct (ceil_div total_count num_of_rows) as [total_pages|] eqn:Hceil;
      [|discriminate].
    cbn in Hc.
    destruct (mapR (fetch_page session) (later_pages params total_pages))
      as [results|] eqn:Hresults; [|discriminate].
    cbn in Hc. injection Hc as <-.
    exists tc, total_count, total_pages, results. done.
  - left. injection Hc as <-. done.
Qed.

End RecordFacts.

(** ** More on the collector *)

Module CollectorMore.
Import Collector Whole RecordFacts.

Section Facts.

Variable session : Params → HttpReply.

(** X2. Every field of every record a collection returns is free of
    whitespace at both ends. *)
Theorem collected_fields_are_trimmed api_key lawd_cd deal_ymd num_of_rows c :
  fetch_all_apt_trade_data_async session api_key lawd_cd deal_ymd num_of_rows
  = Return c →
  Forall (λ x : record, map_Forall (λ _ v, trimmed v = true) x) (items c).
Proof.
  intros Hc.
  destruct (collect_shape _ _ _ _ _ _ Hc)
    as (status & root & _
        & [[_ ->]|(tc & n & pages & results & _ & _ & _ & Hres & ->)]);
    simpl; [constructor|].
  apply Forall_app. split; [apply parse_items_trimmed|].
  apply mapR_Return in Hres. apply Forall_forall.
  intros x Hx. apply list_elem_of_In, in_concat in Hx as (xs & Hxs & Hx).
  apply list_elem_of_In, list_elem_of_fmap in Hxs as ([lines ys] & -> & Hin).
  destruct (proj1 (list_elem_of_lookup _ _) Hin) as [i Hi].
  destruct (Forall2_lookup_r _ _ _ _ _ Hres Hi) as (params & _ & Hpage).
  simpl in Hx.
  destruct (fetch_page_shape _ _ _ _ Hpage)
    as [[-> _]|[_ (root' & _ & ->)]]; [by apply in_nil in Hx|].
  pose proof (parse_items_trimmed root') as Hall.
  rewrite List.Forall_forall in Hall. by apply Hall.
Qed.

(** X3. A collection consults the peer for page 1 and for the pages 2 to
    [total_pages] of its own query, and for nothing else: two peers that
    agree on these give the same collection. *)
Theorem collect_consults_only_its_pages (session' : Params → HttpReply)
    api_key lawd_cd deal_ymd num_of_rows status root tc total_count
    total_pages :
  let params := first_params api_key lawd_cd deal_ymd num_of_rows in
  session params = Response status (Some root) →
  find root (lit "totalCount") = Some tc →
  py_int (text tc) = Return total_count →
  ceil_div total_count num_of_rows = Return total_pages →
  session' params = session params →
  (∀ page, 2 ≤ page ≤ total_pages →
           session' (with_pageNo params page)
           = session (with_pageNo params page)) →
  fetch_all_apt_trade_data_async session' api_key lawd_cd deal_ymd num_of_rows
  = fetch_all_apt_trade_data_async session api_key lawd_cd deal_ymd num_of_rows.
Proof.
  intros params Hfirst Hfind Hint Hceil Hsame Hpages.
  unfold fetch_all_apt_trade_data_async. fold params.
  rewrite Hsame, Hfirst. cbn. rewrite Hfind.
  rewrite !(bind_return _ _ _ Hint), !(bind_return _ _ _ Hceil).
  rewrite (mapR_ext (fetch_page session') (fetch_page session));
    [reflexivity|].
  intros p Hp. unfold later_pages, range in Hp.
  apply list_elem_of_fmap in Hp as (page & -> & Hpage).
  apply elem_of_seqZ in Hpage. unfold fetch_page.
  rewrite Hpages by lia. reflexivity.
Qed.

(** X4. The HTTP status of the first page is never looked at: a first
    page refused with any status, but with a readable body, is collected
    like one answered with 200. *)
Theorem first_page_status_is_ignored (session' : Params → HttpReply)
    api_key lawd_cd deal_ymd num_of_rows status status' body :
  let params := first_params api_key lawd_cd deal_ymd num_of_rows in
  session params = Response status body →
  session' params = Response status' body →
  (∀ p, pageNo p ≠ 1 → session' p = session p) →
  fetch_all_apt_trade_data_async session' api_key lawd_cd deal_ymd num_of_rows
  = fetch_all_apt_trade_data_async session api_key lawd_cd deal_ymd num_of_rows.
Proof.
  intros params Hfirst Hfirst' Hrest.
  unfold fetch_all_apt_trade_data_async. fold params.
  rewrite Hfirst, Hfirst'. destruct body as [root|]; [|reflexivity]. cbn.
  destruct (find root (lit "totalCount")) as [tc|]; [|reflexivity].
  destruct (py_int (text tc)) as [total_count|]; [|reflexivity]. cbn.
  destruct (ceil_div total_count num_of_rows) as [total_pages|];
    [|reflexivity].
  cbn.
  rewrite (mapR_ext (fetch_page session') (fetch_page session));
    [reflexivity|].
  intros p Hp. unfold later_pages, range in Hp.
  apply list_elem_of_fmap in Hp as (page & -> & Hpage).
  apply elem_of_seqZ in Hpage. unfold fetch_page.
  rewrite Hrest; [reflexivity|]. simpl. lia.
Qed.

(** X5. A first page whose [totalCount] cannot be read as a number is not
    an empty collection but an exception: [TypeError] for an element
    without text, and whatever [int] raises for its text; and so is a
    page size of zero next to any count, [ZeroDivisionError]. *)
Theorem unreadable_count_raises api_key lawd_cd deal_ymd num_of_rows
    status root tc :
  let params := first_params api_key lawd_cd deal_ymd num_of_rows in
  let collect :=
    fetch_all_apt_trade_data_async session api_key lawd_cd deal_ymd
      num_of_rows in
  session params = Response status (Some root) →
  find root (lit "totalCount") = Some tc →
  (text tc = None → collect = Raise TypeError)
  ∧ (∀ e, py_int (text tc) = Raise e → collect = Raise e)
  ∧ (∀ total_count, py_int (text tc) = Return total_count →
          num_of_rows = 0 → collect = Raise ZeroDivisionError).
Proof.
  intros params collect Hfirst Hfind. unfold collect.
  unfold fetch_all_apt_trade_data_async. fold params.
  rewrite Hfirst. cbn. rewrite Hfind. split; [|split].
  - by intros ->.
  - by intros e ->.
  - intros total_count -> ->. reflexivity.
Qed.

(** The quotient rounded up. *)
Lemma ceil_div_bounds (a b q : Z) :
  0 < b → ceil_div a b = Return q → (q - 1) * b < a ≤ q * b.
Proof.
  intros Hb. unfold ceil_div. destruct (Z.eqb_spec b 0); [lia|].
  intros [= <-].
  pose proof (Z.div_mod (- a) b ltac:(lia)) as Hdiv.
  pose proof (Z.mod_pos_bound (- a) b Hb) as Hmod. nia.
Qed.

Lemma length_later_pages params total_pages :
  Z.of_nat (length (later_pages params total_pages))
  = Z.max 0 (total_pages - 1).
Proof.
  unfold later_pages, range. rewrite length_fmap, length_seqZ. lia.
Qed.

(** X6. With a positive page size, and count and page size below
    [2^53], where the floating-point quotient rounds up to the exact
    ceiling, the pages asked for cover the count and no more:
    [total_pages] pages hold at least [total_count] records, one page
    fewer would not, and the collection makes [total_pages] requests, or
    the one of page 1 when the count is zero or negative. *)
Theorem pages_cover_the_count api_key lawd_cd deal_ymd num_of_rows
    status root tc total_count c :
  let params := first_params api_key lawd_cd deal_ymd num_of_rows in
  session params = Response status (Some root) →
  find root (lit "totalCount") = Some tc →
  py_int (text tc) = Return total_count →
  0 < num_of_rows < 2 ^ 53 →
  Z.abs total_count < 2 ^ 53 →
  fetch_all_apt_trade_data_async session api_key lawd_cd deal_ymd num_of_rows
  = Return c →
  ∃ total_pages,
    (total_pages - 1) * num_of_rows < total_count ≤ total_pages * num_of_rows
    ∧ Z.of_nat (length (requests c)) = Z.max 1 total_pages
    ∧ pageNo <$> requests c = seqZ 1 (Z.max 1 total_pages).
Proof.
  intros params Hfirst Hfind Hint [Hrows _] _ Hc.
  destruct (collect_shape _ _ _ _ _ _ Hc)
    as (status' & root' & Hfirst'
        & [[Hnone _]|(tc' & n & total_pages & results
                      & Hfind' & Hint' & Hceil & _ & ->)]);
    fold params in Hfirst'; rewrite Hfirst in Hfirst';
    injection Hfirst' as <- <-; [congruence|].
  rewrite Hfind in Hfind'. injection Hfind' as <-.
  rewrite Hint in Hint'. injection Hint' as <-.
  exists total_pages. split; [by apply ceil_div_bounds|].
  cbn [requests].
  split; [rewrite length_cons, Nat2Z.inj_succ, length_later_pages; lia|].
  rewrite fmap_cons. unfold later_pages, range.
  rewrite <- list_fmap_compose.
  rewrite (list_fmap_ext _ id (seqZ 2 (total_pages + 1 - 2)))
    by (intros; reflexivity).
  rewrite list_fmap_id. cbn [pageNo params first_params].
  destruct (Z.le_gt_cases total_pages 1) as [Hle|Hgt].
  - rewrite (seqZ_nil 2) by lia.
    replace (Z.max 1 total_pages) with 1 by lia. reflexivity.
  - replace (Z.max 1 total_pages) with (Z.succ (total_pages - 1)) by lia.
    rewrite (seqZ_cons 1) by lia.
    replace (Z.pred (Z.succ (total_pages - 1))) with (total_pages + 1 - 2)
      by lia.
    reflexivity.
Qed.

(** X7. Every request of a collection carries the service key, the
    region, the month and the page size of the call, and no page is asked
    for twice. *)
Theorem requests_differ_in_page_only api_key lawd_cd deal_ymd num_of_rows c :
  let params := first_params api_key lawd_cd deal_ymd num_of_rows in
  fetch_all_apt_trade_data_async session api_key lawd_cd deal_ymd num_of_rows
  = Return c →
  head (requests c) = Some params
  ∧ Forall (λ p, with_pageNo p 1 = params) (requests c)
  ∧ NoDup (pageNo <$> requests c).
Proof.
  intros params Hc.
  destruct (collect_shape _ _ _ _ _ _ Hc)
    as (status & root & _
        & [[_ ->]|(tc & n & total_pages & results & _ & _ & _ & _ & ->)]);
    fold params; cbn [requests head].
  - split; [reflexivity|]. split; [by repeat constructor|].
    apply NoDup_singleton.
  - split; [reflexivity|]. split.
    + constructor; [reflexivity|]. unfold later_pages.
      apply Forall_fmap, Forall_forall. by intros page _.
    + rewrite fmap_cons. unfold later_pages, range.
      rewrite <- list_fmap_compose.
      rewrite (list_fmap_ext _ id (seqZ 2 (total_pages + 1 - 2)))
        by (intros; reflexivity).
      rewrite list_fmap_id. apply NoDup_cons. split; [|apply NoDup_seqZ].
      cbn [pageNo params first_params]. rewrite elem_of_seqZ. lia.
Qed.

(** X8. A collection without a count logs that and returns nothing; one
    that found a count ends its log with the line that reports the number
    of records it returns, and the lines before it are diagnostics of
    failed pages, at most one for each later page. *)
Theorem log_reports_the_count api_key lawd_cd deal_ymd num_of_rows c :
  fetch_all_apt_trade_data_async session api_key lawd_cd deal_ymd num_of_rows
  = Return c →
  (log c = [NoTotalCount] ∧ items c = [])
  ∨ ∃ diagnostics,
      log c = diagnostics
              ++ [Collected lawd_cd deal_ymd (length (items c))]
      ∧ forallb is_diagnostic diagnostics = true
      ∧ (length diagnostics + 1 ≤ length (requests c))%nat.
Proof.
  intros Hc.
  destruct (collect_shape _ _ _ _ _ _ Hc)
    as (status & root & _
        & [[_ ->]|(tc & n & total_pages & results & _ & _ & _ & Hres & ->)]);
    [by left|right].
  exists (concat (fst <$> results)). cbn [log items requests length].
  split; [reflexivity|].
  apply mapR_Return in Hres.
  assert (Hlines : forallb is_diagnostic (concat (fst <$> results)) = true
                   ∧ (length (concat (fst <$> results))
                      ≤ length (later_pages
                                  (first_params api_key lawd_cd deal_ymd
                                     num_of_rows) total_pages))%nat).
  { clear Hc. revert Hres.
    generalize (later_pages
                  (first_params api_key lawd_cd deal_ymd num_of_rows)
                  total_pages).
    intros tasks Hres.
    induction Hres as [|p [lines ys] tasks results' Hp _ [IH1 IH2]].
    - by split.
    - rewrite fmap_cons. cbn [concat fst length].
      rewrite forallb_app, length_app, IH1.
      destruct (fetch_page_shape _ _ _ _ Hp)
        as [[_ (e & -> & He)]|[-> _]]; simpl.
      + rewrite He. split; [reflexivity|]. lia.
      + split; [reflexivity|]. lia. }
  destruct Hlines as [Hdiag Hlen]. split; [exact Hdiag|]. lia.
Qed.

End Facts.

Import Samples MoreSamples.

Lemma collected_fields_are_trimmed_witness :
  ∃ c,
    fetch_all_apt_trade_data_async healthy KEY JONGNO MONTH 10 = Return c
    ∧ Forall (λ x : record, map_Forall (λ _ v, trimmed v = true) x) (items c).
Proof.
  eexists. split; [reflexivity|].
  by apply (collected_fields_are_trimmed healthy KEY JONGNO MONTH 10).
Defined.

Lemma collect_consults_only_its_pages_witness :
  fetch_all_apt_trade_data_async
    (λ p, if (pageNo p <=? 3)%Z then healthy p else TransportError)
    KEY JONGNO MONTH 10
  = fetch_all_apt_trade_data_async healthy KEY JONGNO MONTH 10.
Proof.
  apply (collect_consults_only_its_pages healthy _ KEY JONGNO MONTH 10 200
           first_of_25 (count "25") 25 3); try reflexivity.
  intros page Hpage. simpl.
  destruct (Z.leb_spec page 3); [reflexivity|lia].
Defined.

Lemma first_page_status_is_ignored_witness :
  fetch_all_apt_trade_data_async refused_first KEY JONGNO MONTH 10
  = fetch_all_apt_trade_data_async healthy KEY JONGNO MONTH 10.
Proof.
  apply (first_page_status_is_ignored healthy refused_first KEY JONGNO MONTH 10
           200 500 (Some first_of_25)); try reflexivity.
  intros p Hp. unfold refused_first.
  destruct (Z.eqb_spec (pageNo p) 1); [done|reflexivity].
Defined.

Lemma unreadable_count_raises_witness :
  fetch_all_apt_trade_data_async garbled_count KEY JONGNO MONTH 10
  = Raise ValueError.
Proof.
  destruct (unreadable_count_raises garbled_count KEY JONGNO MONTH 10 200
              garbled_page (count "many") eq_refl eq_refl)
    as (_ & Hvalue & _).
  by apply (Hvalue ValueError).
Defined.

Lemma pages_cover_the_count_witness :
  ∃ c,
    fetch_all_apt_trade_data_async healthy KEY JONGNO MONTH 10 = Return c
    ∧ pageNo <$> requests c = [1; 2; 3].
Proof.
  eexists. split; [reflexivity|].
  destruct (pages_cover_the_count healthy KEY JONGNO MONTH 10 200
              first_of_25 (count "25") 25 _ eq_refl eq_refl eq_refl
              ltac:(lia) ltac:(lia) eq_refl)
    as (total_pages & Hbounds & _ & Hpages).
  assert (total_pages = 3) as -> by lia. exact Hpages.
Defined.

Lemma requests_differ_in_page_only_witness :
  ∃ c,
    fetch_all_apt_trade_data_async healthy KEY JONGNO MONTH 10 = Return c
    ∧ NoDup (pageNo <$> requests c).
Proof.
  eexists. split; [reflexivity|].
  by apply (requests_differ_in_page_only healthy KEY JONGNO MONTH 10).
Defined.

Lemma log_reports_the_count_witness :
  ∃ c,
    fetch_all_apt_trade_data_async degraded KEY JONGNO MONTH 10 = Return c
    ∧ last (log c) = Some (Collected JONGNO MONTH (length (items c))).
Proof.
  eexists. split; [reflexivity|].
  destruct (log_reports_the_count degraded KEY JONGNO MONTH 10 _ eq_refl)
    as [[Hlog _]|(diagnostics & -> & _)]; [discriminate|].
  apply last_snoc.
Defined.

End CollectorMore.

(** ** More on the admission gate *)

Module GateMore.
Import Collector Gate GateCount GateFacts.

Lemma count_le kind ts : (count kind ts ≤ length ts)%nat.
Proof. unfold count. apply length_filter. Qed.

Lemma count_found kind ts :
  (0 < count kind ts)%nat → ∃ i t, ts !! i = Some t ∧ kind t = true.
Proof.
  induction ts as [|t ts IH]; [unfold count; simpl; lia|].
  rewrite count_cons. unfold weight. destruct (kind t) eqn:Ht.
  - intros _. by exists 0%nat, t.
  - intros Hpos. destruct IH as (i & t' & Hi & Ht'); [lia|].
    by exists (S i), t'.
Qed.

Lemma count_none kind ts :
  count kind ts = 0%nat → Forall (λ t, kind t = false) ts.
Proof.
  induction ts as [|t ts IH]; [constructor|].
  rewrite count_cons. unfold weight. destruct (kind t) eqn:Ht; [lia|].
  intros Hts. constructor; [exact Ht|by apply IH].
Qed.

Lemma started_split ts :
  count is_started ts = (count is_in_flight ts + count is_done ts)%nat.
Proof.
  induction ts as [|t ts IH]; [reflexivity|].
  rewrite !count_cons, IH. destruct t; unfold weight; simpl; lia.
Qed.

Section Facts.

Variable session : Params → HttpReply.
Variable pages : list Params.

(** Every move is one of the remaining ones. *)
Lemma step_remaining m s s' :
  step session pages m s = Some s' → remaining s = S (remaining s').
Proof.
  unfold step, remaining. destruct m as [i|i].
  - destruct (tasks s !! i) as [[| |r]|] eqn:Hi; try discriminate.
    destruct (0 <? value s)%nat; [|discriminate]. intros [= <-].
    pose proof (count_insert is_suspended _ i Suspended InFlight Hi) as H1.
    pose proof (count_insert is_in_flight _ i Suspended InFlight Hi) as H2.
    cbn [tasks weight is_suspended is_in_flight] in *. lia.
  - destruct (tasks s !! i) as [[| |r]|] eqn:Hi; try discriminate.
    destruct (pages !! i) as [p|]; [|discriminate]. intros [= <-].
    pose proof (count_insert is_suspended _ i InFlight
                  (Done (fetch_page session p)) Hi) as H1.
    pose proof (count_insert is_in_flight _ i InFlight
                  (Done (fetch_page session p)) Hi) as H2.
    cbn [tasks weight is_suspended is_in_flight] in *. lia.
Qed.

(** While a move remains, one is possible. *)
Lemma some_move_possible s :
  consistent session pages s → (0 < remaining s)%nat →
  ∃ m s', step session pages m s = Some s'.
Proof.
  intros [Hslots Htasks] Hpos. unfold remaining in Hpos.
  destruct (Nat.eq_dec (count is_in_flight (tasks s)) 0%nat)
    as [Hnone|Hsome].
  - destruct (count_found is_suspended (tasks s)) as (i & t & Hi & Ht);
      [lia|].
    destruct t; try discriminate.
    exists (Admit i). unfold step. rewrite Hi.
    unfold in_flight, CEILING in Hslots.
    destruct (Nat.ltb_spec 0 (value s)); [eauto|lia].
  - destruct (count_found is_in_flight (tasks s)) as (i & t & Hi & Ht);
      [lia|].
    destruct t; try discriminate.
    destruct (Forall2_lookup_l _ _ _ i InFlight Htasks Hi) as (p & Hp & _).
    exists (Complete i). unfold step. rewrite Hi, Hp. eauto.
Qed.

(** With no move remaining every task is done. *)
Lemma nothing_remaining_gathered s :
  consistent session pages s → remaining s = 0%nat →
  gathered s = Some (mapR (fetch_page session) pages).
Proof.
  intros Hs Hzero. unfold remaining in Hzero.
  assert (Hdone : is_Some (mapM outcome_of (tasks s))).
  { pose proof (count_none is_suspended (tasks s) ltac:(lia)) as H1.
    pose proof (count_none is_in_flight (tasks s) ltac:(lia)) as H2.
    clear Hs Hzero. induction (tasks s) as [|t ts IH]; [by eexists|].
    inversion H1; inversion H2; subst.
    destruct IH as [os Hos]; [done|done|].
    destruct t as [| |r]; try discriminate.
    exists (r :: os). apply mapM_Some. constructor; [reflexivity|].
    by apply mapM_Some. }
  destruct Hdone as [outcomes Hm].
  assert (Hg : gathered s = Some (mapR id outcomes))
    by (unfold gathered; by rewrite Hm).
  rewrite Hg. f_equal. by eapply gathered_agrees.
Qed.

Lemma run_app schedule rest s s' :
  run session pages schedule s = Some s' →
  run session pages (schedule ++ rest) s = run session pages rest s'.
Proof.
  revert s. induction schedule as [|m schedule IH]; simpl; intros s.
  - by intros [= <-].
  - destruct (step session pages m s); [apply IH|discriminate].
Qed.

Lemma finish_from s :
  consistent session pages s →
  ∃ rest s',
    run session pages rest s = Some s'
    ∧ length rest = remaining s
    ∧ remaining s' = 0%nat.
Proof.
  remember (remaining s) as n eqn:Hn. revert s Hn.
  induction n as [|n IH]; intros s Hn Hs.
  - by exists [], s.
  - destruct (some_move_possible s Hs) as (m & s1 & Hm); [lia|].
    pose proof (step_remaining _ _ _ Hm) as Hless.
    destruct (IH s1) as (rest & s' & Hrun & Hlen & Hg);
      [lia|by eapply step_consistent|].
    exists (m :: rest), s'. simpl. rewrite Hm.
    split; [exact Hrun|]. split; [by rewrite Hlen|exact Hg].
Qed.

(** Every move of a run is one of those that remained. *)
Lemma run_remaining schedule s s' :
  run session pages schedule s = Some s' →
  remaining s = (length schedule + remaining s')%nat.
Proof.
  revert s. induction schedule as [|m schedule IH]; simpl; intros s.
  - by intros [= <-].
  - destruct (step session pages m s) as [s1|] eqn:Hm; [|discriminate].
    intros Hrun. rewrite (step_remaining _ _ _ Hm), (IH _ Hrun). lia.
Qed.

Lemma remaining_start : remaining (start pages) = (2 * length pages)%nat.
Proof.
  unfold remaining, start. cbn [tasks].
  rewrite (count_replicate_suspended is_in_flight) by reflexivity.
  assert (Hall : ∀ n, count is_suspended (replicate n Suspended) = n).
  { induction n as [|n IH]; [reflexivity|]. simpl.
    rewrite count_cons, IH. reflexivity. }
  rewrite Hall. lia.
Qed.

(** With no move remaining, every page has its task done. *)
Lemma nothing_remaining_done s :
  consistent session pages s → remaining s = 0%nat →
  count is_done (tasks s) = length pages.
Proof.
  intros [_ Htasks] Hzero. apply Forall2_length in Htasks.
  rewrite <- Htasks. unfold remaining in Hzero.
  assert (Hsplit : ∀ ts,
            length ts = (count is_suspended ts + count is_in_flight ts
                         + count is_done ts)%nat).
  { induction ts as [|t ts IH]; [reflexivity|].
    rewrite !count_cons. simpl. rewrite IH.
    destruct t; unfold weight; simpl; lia. }
  rewrite (Hsplit (tasks s)). lia.
Qed.

(** X9. The gate never blocks a collection: from every state the event
    loop can reach, the moves that remain (two for a suspended task, one
    for a fetch in flight) can be made, in some order, and after them no
    task waits at the gate or holds a slot: every page has been fetched.
    When every page returns, [gather] then hands back the results in
    page order. *)
Theorem gate_never_deadlocks schedule s :
  run session pages schedule (start pages) = Some s →
  ∃ rest s',
    run session pages (schedule ++ rest) (start pages) = Some s'
    ∧ length rest = remaining s
    ∧ remaining s' = 0%nat
    ∧ count is_done (tasks s') = length pages
    ∧ ∀ results,
        mapR (fetch_page session) pages = Return results →
        gathered s' = Some (Return results).
Proof.
  intros Hrun.
  pose proof (run_consistent _ _ _ _ _ (start_consistent session pages) Hrun)
    as Hs.
  destruct (finish_from s Hs) as (rest & s' & Hrest & Hlen & Hzero).
  pose proof (run_consistent _ _ _ _ _ Hs Hrest) as Hs'.
  exists rest, s'. rewrite (run_app _ _ _ _ Hrun).
  split; [exact Hrest|]. split; [exact Hlen|]. split; [exact Hzero|].
  split; [by apply nothing_remaining_done|].
  intros results <-. by apply nothing_remaining_gathered.
Qed.

Lemma run_completions schedule s s' :
  run session pages schedule s = Some s' →
  count is_done (tasks s')
  = (count is_done (tasks s) + completions schedule)%nat.
Proof.
  revert s. induction schedule as [|m schedule IH]; simpl; intros s.
  - intros [= <-]. unfold completions. simpl. lia.
  - destruct (step session pages m s) as [s1|] eqn:Hm; [|discriminate].
    intros Hrun. rewrite (IH _ Hrun). clear IH Hrun.
    unfold completions. rewrite filter_cons. revert Hm. unfold step.
    destruct m as [i|i].
    + destruct (tasks s !! i) as [[| |r]|] eqn:Hi; try discriminate.
      destruct (0 <? value s)%nat; [|discriminate]. intros [= <-].
      pose proof (count_insert is_done (tasks s) i Suspended InFlight Hi)
        as Hc.
      cbn [tasks weight is_done is_admit] in *. simpl. lia.
    + destruct (tasks s !! i) as [[| |r]|] eqn:Hi; try discriminate.
      destruct (pages !! i) as [p|]; [|discriminate]. intros [= <-].
      pose proof (count_insert is_done (tasks s) i InFlight
                    (Done (fetch_page session p)) Hi) as Hc.
      cbn [tasks weight is_done is_admit] in *. simpl. lia.
Qed.

(** X10. In every run of the event loop, finished or not, no page is
    requested twice: the admissions are as many as the tasks that left
    the gate's queue, at most one for each page, and the admissions not
    yet matched by a completion are the fetches in flight. *)
Theorem no_page_requested_twice schedule s :
  run session pages schedule (start pages) = Some s →
  admissions schedule = started s
  ∧ (admissions schedule ≤ length pages)%nat
  ∧ (admissions schedule = completions schedule + in_flight s)%nat.
Proof.
  intros Hrun.
  pose proof (run_admissions _ _ _ _ _ Hrun) as Hadm.
  pose proof (run_completions _ _ _ Hrun) as Hcom.
  destruct (run_consistent _ _ _ _ _ (start_consistent session pages) Hrun)
    as [_ Htasks].
  apply Forall2_length in Htasks.
  unfold started, start in *. cbn [tasks] in *.
  rewrite (count_replicate_suspended is_started) in Hadm by reflexivity.
  rewrite (count_replicate_suspended is_done) in Hcom by reflexivity.
  pose proof (count_le is_started (tasks s)) as Hle.
  pose proof (started_split (tasks s)) as Hsplit.
  unfold in_flight. repeat split; lia.
Qed.

(** X11. A page that is done stays done with the result it has: no later
    move of the loop fetches it again or replaces what it returned. *)
Theorem done_stays_done schedule s s' i r :
  run session pages schedule s = Some s' →
  tasks s !! i = Some (Done r) →
  tasks s' !! i = Some (Done r).
Proof.
  revert s. induction schedule as [|m schedule IH]; simpl; intros s.
  - by intros [= <-].
  - destruct (step session pages m s) as [s1|] eqn:Hm; [|discriminate].
    intros Hrun Hi. apply (IH s1 Hrun). revert Hm. unfold step.
    destruct m as [j|j].
    + destruct (tasks s !! j) as [[| |r']|] eqn:Hj; try discriminate.
      destruct (0 <? value s)%nat; [|discriminate]. intros [= <-].
      simpl. rewrite list_lookup_insert_ne; [exact Hi|congruence].
    + destruct (tasks s !! j) as [[| |r']|] eqn:Hj; try discriminate.
      destruct (pages !! j) as [p|]; [|discriminate]. intros [= <-].
      simpl. rewrite list_lookup_insert_ne; [exact Hi|congruence].
Qed.

(** X12. When every page returns, the order in which the event loop
    takes the pages does not show in what [gather] returns: two runs
    that leave no move to make hand back the same results, those of the
    pages in page order, after the same number of moves, two for each
    page. *)
Theorem gather_is_schedule_independent schedule1 schedule2 s1 s2 results :
  mapR (fetch_page session) pages = Return results →
  run session pages schedule1 (start pages) = Some s1 →
  run session pages schedule2 (start pages) = Some s2 →
  remaining s1 = 0%nat →
  remaining s2 = 0%nat →
  gathered s1 = Some (Return results)
  ∧ gathered s2 = Some (Return results)
  ∧ length schedule1 = (2 * length pages)%nat
  ∧ length schedule2 = (2 * length pages)%nat.
Proof.
  intros Hreturn Hrun1 Hrun2 Hzero1 Hzero2.
  pose proof (run_consistent _ _ _ _ _ (start_consistent session pages) Hrun1)
    as Hs1.
  pose proof (run_consistent _ _ _ _ _ (start_consistent session pages) Hrun2)
    as Hs2.
  pose proof (run_remaining _ _ _ Hrun1) as Hlen1.
  pose proof (run_remaining _ _ _ Hrun2) as Hlen2.
  rewrite remaining_start in Hlen1, Hlen2.
  rewrite <- Hreturn.
  split; [by apply nothing_remaining_gathered|].
  split; [by apply nothing_remaining_gathered|]. lia.
Qed.

End Facts.

Import Samples.

Lemma gate_never_deadlocks_witness :
  ∃ rest s',
    run healthy twelve_pages (five_admissions ++ rest) (start twelve_pages)
    = Some s'
    ∧ length rest = 19%nat
    ∧ Gate.count is_done (tasks s') = 12%nat
    ∧ ∃ results, gathered s' = Some (Return results).
Proof.
  destruct (gate_never_deadlocks healthy twelve_pages five_admissions
              gate_full eq_refl)
    as (rest & s' & Hrun & Hlen & _ & Hdone & Hg).
  exists rest, s'. split; [exact Hrun|]. split; [exact Hlen|].
  split; [exact Hdone|]. eexists. apply Hg. vm_compute. reflexivity.
Defined.

Lemma no_page_requested_twice_witness :
  admissions five_admissions = 5%nat
  ∧ (admissions five_admissions ≤ length twelve_pages)%nat.
Proof.
  destruct (no_page_requested_twice healthy twelve_pages five_admissions
              gate_full eq_refl)
    as (_ & Hle & _).
  split; [reflexivity|exact Hle].
Defined.

Lemma done_stays_done_witness :
  ∃ s r,
    run healthy twelve_pages (one_by_one 0 2) (start twelve_pages) = Some s
    ∧ tasks s !! 0%nat = Some (Done r).
Proof.
  eexists. eexists. split; [reflexivity|].
  apply (done_stays_done healthy twelve_pages [Admit 1; Complete 1]
           (mkLoop CEILING
              (Done (fetch_page healthy
                       (with_pageNo
                          (mkParams (lit "key") (lit "11110") (lit "202611")
                             10 1) 2))
               :: replicate 11 Suspended))); reflexivity.
Defined.

Lemma gather_is_schedule_independent_witness :
  ∃ s1 s2 results,
    run healthy (later_pages (first_params KEY JONGNO MONTH 10) 3)
      [Admit 0; Complete 0; Admit 1; Complete 1]
      (start (later_pages (first_params KEY JONGNO MONTH 10) 3)) = Some s1
    ∧ run healthy (later_pages (first_params KEY JONGNO MONTH 10) 3)
        [Admit 1; Admit 0; Complete 1; Complete 0]
        (start (later_pages (first_params KEY JONGNO MONTH 10) 3)) = Some s2
    ∧ gathered s1 = Some (Return results)
    ∧ gathered s2 = Some (Return results).
Proof.
  eexists _, _, _. split; [reflexivity|]. split; [reflexivity|].
  destruct (gather_is_schedule_independent healthy
              (later_pages (first_params KEY JONGNO MONTH 10) 3)
              [Admit 0; Complete 0; Admit 1; Complete 1]
              [Admit 1; Admit 0; Complete 1; Complete 0]
              _ _ _ eq_refl eq_refl eq_refl eq_refl eq_refl)
    as (Hg1 & Hg2 & _).
  split; [exact Hg1|exact Hg2].
Defined.

End GateMore.

(** ** More on the resolver *)

Module ResolverMore.
Import Resolver ResolverFacts.

Lemma filterR_raises {A} (keep : A → result bool) (xs : list A) :
  Exists (λ x, returns (keep x) = false) xs →
  returns (filterR keep xs) = false.
Proof.
  induction 1 as [x xs Hx|x xs _ IH]; cbn [filterR].
  - by destruct (keep x).
  - destruct (keep x); [|reflexivity]. cbn.
    by destruct (filterR keep xs).
Qed.

(** The answer to a miss that raised: three nulls, the cache as it was. *)
Lemma miss_raised geocoder address run :
  ADDRESS_CACHE run !! address = None →
  returns (attempt (geocoder (posted run) address)) = false →
  ∃ e,
    get_lat_lon geocoder address run
    = (triple PNone PNone PNone,
       mkRun (ADDRESS_CACHE run) (posted run ++ [address])
             (printed run ++ [KakaoError e])).
Proof.
  intros Hmiss Hraise. unfold get_lat_lon. rewrite Hmiss. cbv zeta.
  destruct (attempt _) as [r|e]; [discriminate|]. by exists e.
Qed.

(** What a miss comes to. *)
Lemma miss_shape geocoder address run :
  ADDRESS_CACHE run !! address = None →
  ∃ place_name lat lng,
    (get_lat_lon geocoder address run).1 = triple place_name lat lng
    ∧ posted (get_lat_lon geocoder address run).2 = posted run ++ [address]
    ∧ (ADDRESS_CACHE (get_lat_lon geocoder address run).2 = ADDRESS_CACHE run
       ∨ ADDRESS_CACHE (get_lat_lon geocoder address run).2
         = <[address := triple place_name lat lng]> (ADDRESS_CACHE run)).
Proof.
  intros Hmiss. unfold get_lat_lon. rewrite Hmiss. cbv zeta.
  destruct (attempt (geocoder (posted run) address)) as [r|e] eqn:Hattempt.
  - unfold attempt in Hattempt.
    destruct (loads_fetch_post _) as [data|]; [|discriminate].
    cbn in Hattempt.
    destruct (select_shape _ _ Hattempt)
      as [->|(all_documents & xs & doc & place_name & lat & lng
              & _ & _ & _ & _ & _ & _ & ->)].
    + exists PNone, PNone, PNone. simpl. auto.
    + exists place_name, lat, lng. simpl. auto.
  - exists PNone, PNone, PNone. simpl. auto.
Qed.

(** X13. A lookup that misses the cache posts the address once and
    returns a tuple of three values, whatever the geocoder answers; so
    the unpacking in [main] can fail only on a value that came from the
    cache file. *)
Theorem miss_returns_a_triple geocoder address run :
  ADDRESS_CACHE run !! address = None →
  ∃ place_name lat lng,
    (get_lat_lon geocoder address run).1 = triple place_name lat lng
    ∧ unpack3 (get_lat_lon geocoder address run).1
      = Return (place_name, lat, lng)
    ∧ posted (get_lat_lon geocoder address run).2 = posted run ++ [address].
Proof.
  intros Hmiss.
  destruct (miss_shape geocoder address run Hmiss)
    as (place_name & lat & lng & Hresult & Hposted & _).
  exists place_name, lat, lng. rewrite Hresult. done.
Qed.

(** A lookup leaves the other addresses alone, and the one it looks up
    too when the cache has it. *)
Lemma lookup_grows geocoder address run :
  ADDRESS_CACHE run ⊆ ADDRESS_CACHE (get_lat_lon geocoder address run).2
  ∧ (∀ other, other ≠ address →
       ADDRESS_CACHE (get_lat_lon geocoder address run).2 !! other
       = ADDRESS_CACHE run !! other)
  ∧ (is_Some (ADDRESS_CACHE run !! address) →
       (get_lat_lon geocoder address run).2 = run)
  ∧ (ADDRESS_CACHE run !! address = None →
       posted (get_lat_lon geocoder address run).2 = posted run ++ [address]).
Proof.
  unfold get_lat_lon.
  destruct (ADDRESS_CACHE run !! address) as [cached|] eqn:Hhit.
  - split; [reflexivity|]. split; [reflexivity|]. split; [reflexivity|].
    discriminate.
  - cbv zeta. destruct (attempt _) as [r|e]; cbn [snd ADDRESS_CACHE posted].
    + split; [by apply insert_subseteq|].
      split; [intros other Hother; by rewrite lookup_insert_ne|].
      split; [by intros [? ?]|reflexivity].
    + split; [reflexivity|]. split; [reflexivity|].
      split; [by intros [? ?]|reflexivity].
Qed.

(** X14. A lookup never removes or changes an entry of the cache: the
    cache after it holds the cache before it and differs from it at most
    at the address looked up; when that address was in the cache the
    whole state is as before, and when it was not, exactly one query,
    the address, is posted. *)
Theorem cache_only_grows geocoder address run :
  ADDRESS_CACHE run ⊆ ADDRESS_CACHE (get_lat_lon geocoder address run).2
  ∧ (∀ other, other ≠ address →
       ADDRESS_CACHE (get_lat_lon geocoder address run).2 !! other
       = ADDRESS_CACHE run !! other)
  ∧ (is_Some (ADDRESS_CACHE run !! address) →
       (get_lat_lon geocoder address run).2 = run)
  ∧ (ADDRESS_CACHE run !! address = None →
       posted (get_lat_lon geocoder address run).2 = posted run ++ [address]).
Proof. apply lookup_grows. Qed.

(** X15. One answer the resolver cannot read spoils the whole lookup: if
    the answer has no [documents] field, as the geocoder's error object
    has none, or if any document of the list lacks a category label the
    test can be made on, even after an apartment, the result is three
    nulls and nothing is cached, so the address is asked again the next
    time. *)
Theorem unreadable_answer_is_not_cached geocoder address run j :
  ADDRESS_CACHE run !! address = None →
  geocoder (posted run) address = PostText (Some j) →
  returns (getitem (decode j) (lit "documents")) = false
  ∨ (∃ docs,
       getitem (decode j) (lit "documents") = Return (PList docs)
       ∧ Exists (λ doc, returns (in_category APT doc) = false) docs) →
  (get_lat_lon geocoder address run).1 = triple PNone PNone PNone
  ∧ ADDRESS_CACHE (get_lat_lon geocoder address run).2 = ADDRESS_CACHE run
  ∧ posted (get_lat_lon geocoder address run).2 = posted run ++ [address].
Proof.
  intros Hmiss Hreply Hbad.
  destruct (miss_raised geocoder address run Hmiss) as [e ->]; [|done].
  rewrite Hreply. unfold attempt. cbn [loads_fetch_post mbind result_bind].
  unfold select. destruct Hbad as [Hnone|(docs & Hdocs & Hdoc)].
  - by destruct (getitem (decode j) (lit "documents")).
  - rewrite (bind_return _ _ _ Hdocs).
    destruct docs as [|doc docs]; [by apply Exists_nil in Hdoc|].
    cbn [truthy len length mbind result_bind Nat.ltb Nat.leb elements].
    pose proof (filterR_raises _ _ Hdoc) as Hraise.
    by destruct (filterR (in_category APT) (doc :: docs)).
Qed.

(** X16. An answer whose [documents] is null, zero, false or empty, and
    not only the empty list, counts as no candidate: three nulls are
    returned and cached. *)
Theorem falsy_documents_are_cached geocoder address run j all_documents :
  ADDRESS_CACHE run !! address = None →
  geocoder (posted run) address = PostText (Some j) →
  getitem (decode j) (lit "documents") = Return all_documents →
  truthy all_documents = false →
  get_lat_lon geocoder address run
  = (triple PNone PNone PNone,
     mkRun (<[address := triple PNone PNone PNone]> (ADDRESS_CACHE run))
           (posted run ++ [address]) (printed run)).
Proof.
  intros Hmiss Hreply Hdocs Hfalsy. unfold get_lat_lon. rewrite Hmiss.
  cbv zeta. rewrite Hreply. unfold attempt.
  cbn [loads_fetch_post mbind result_bind]. unfold select.
  rewrite (bind_return _ _ _ Hdocs), Hfalsy. reflexivity.
Qed.

Import Samples MoreSamples.

Lemma miss_returns_a_triple_witness :
  ∃ place_name lat lng,
    (get_lat_lon unreachable ADDRESS fresh_run).1 = triple place_name lat lng.
Proof.
  destruct (miss_returns_a_triple unreachable ADDRESS fresh_run eq_refl)
    as (place_name & lat & lng & Hresult & _).
  by exists place_name, lat, lng.
Defined.

Lemma unreadable_answer_is_not_cached_witness :
  (get_lat_lon apartment_then_unlabelled ADDRESS fresh_run).1
  = triple PNone PNone PNone
  ∧ (get_lat_lon rejected ADDRESS fresh_run).1 = triple PNone PNone PNone.
Proof.
  split.
  - apply (unreadable_answer_is_not_cached apartment_then_unlabelled ADDRESS
             fresh_run _ eq_refl eq_refl).
    right. eexists. split; [reflexivity|].
    apply Exists_cons_tl, Exists_cons_hd. reflexivity.
  - apply (unreadable_answer_is_not_cached rejected ADDRESS fresh_run _
             eq_refl eq_refl).
    by left.
Defined.

Lemma falsy_documents_are_cached_witness :
  ADDRESS_CACHE
    (get_lat_lon
       (λ _ _, PostText (Some (JObject [(lit "documents", JNull)])))
       ADDRESS fresh_run).2 !! ADDRESS
  = Some (triple PNone PNone PNone).
Proof.
  rewrite (falsy_documents_are_cached _ ADDRESS fresh_run
             (JObject [(lit "documents", JNull)]) PNone
             eq_refl eq_refl eq_refl eq_refl).
  reflexivity.
Defined.

End ResolverMore.

(** ** More on the loop of [main] *)

Module MainMore.
Import Collector Resolver Main Whole MainFacts.

(** What one turn of the loop comes to when it returns. *)
Lemma process_record_shape geocoder sggCd st x st' :
  process_record geocoder sggCd st x = Return st' →
  ∃ address,
    address_of sggCd x = Return address
    ∧ run st' = (get_lat_lon geocoder address (run st)).2
    ∧ (∃ more, data st' = data st ++ more ∧ (length more ≤ 1)%nat)
    ∧ (if ADDRESS_CACHE (run st) !! address is Some _
       then cache_hit_count st' = S (cache_hit_count st)
            ∧ api_call_count st' = api_call_count st
       else cache_hit_count st' = cache_hit_count st
            ∧ api_call_count st' = S (api_call_count st)).
Proof.
  unfold process_record. intros Hturn.
  destruct (address_of sggCd x) as [address|e]; [|discriminate].
  cbn [mbind result_bind] in Hturn. exists address. split; [reflexivity|].
  destruct (get_lat_lon geocoder address (run st)) as [resolved run'].
  destruct (unpack3 resolved) as [[[place_name lat] lng]|e]; [|discriminate].
  cbn [mbind result_bind] in Hturn.
  assert (Hhit : ∀ (a b : nat),
            (if bool_decide (is_Some (ADDRESS_CACHE (run st) !! address))
             then a else b)
            = if ADDRESS_CACHE (run st) !! address is Some _ then a else b).
  { intros a b. destruct (ADDRESS_CACHE (run st) !! address) as [v|] eqn:Hv.
    - by rewrite bool_decide_eq_true_2.
    - rewrite bool_decide_eq_false_2; [done|]. by intros [? ?]. }
  rewrite !Hhit in Hturn. clear Hhit.
  destruct (truthy lat && truthy lng).
  - destruct (entry_of _ _ _ _ _) as [entry|e]; [|discriminate].
    injection Hturn as <-. simpl. split; [reflexivity|].
    split; [exists [entry]; by split|].
    by destruct (ADDRESS_CACHE (run st) !! address).
  - injection Hturn as <-. simpl. split; [reflexivity|].
    split; [exists []; split; [by rewrite app_nil_r|simpl; lia]|].
    by destruct (ADDRESS_CACHE (run st) !! address).
Qed.

Lemma advanced_refl st : advanced 0 st st.
Proof.
  split; [reflexivity|]. split.
  - exists []. rewrite app_nil_r. split; [done|]. split; [constructor|].
    simpl. lia.
  - split; [lia|]. exists []. by rewrite app_nil_r.
Qed.

Lemma advanced_trans n m st1 st2 st3 :
  advanced n st1 st2 → advanced m st2 st3 → advanced (n + m) st1 st3.
Proof.
  intros (Hsub1 & (asked1 & Hp1 & Hnew1 & Hc1) & Hn1 & more1 & Hd1 & Hl1)
         (Hsub2 & (asked2 & Hp2 & Hnew2 & Hc2) & Hn2 & more2 & Hd2 & Hl2).
  split; [by etrans|]. split; [|split].
  - exists (asked1 ++ asked2). rewrite Hp2, Hp1, app_assoc.
    split; [done|]. split.
    + apply Forall_app. split; [done|].
      eapply Forall_impl; [exact Hnew2|]. intros a Ha. simpl in Ha.
      by eapply lookup_weaken_None.
    + rewrite length_app. lia.
  - lia.
  - exists (more1 ++ more2). rewrite Hd2, Hd1, app_assoc.
    split; [done|]. rewrite length_app. lia.
Qed.

Lemma process_record_advanced geocoder sggCd st x st' :
  process_record geocoder sggCd st x = Return st' → advanced 1 st st'.
Proof.
  intros (address & _ & Hrun & Hdata & Hcount)%process_record_shape.
  destruct (ResolverMore.lookup_grows geocoder address (run st))
    as (Hsub & _ & Hhit & Hmiss).
  rewrite <- Hrun in Hsub, Hhit, Hmiss.
  split; [exact Hsub|].
  destruct (ADDRESS_CACHE (run st) !! address) as [v|] eqn:Hv.
  - destruct Hcount as [Hhits Hcalls]. split; [|split; [lia|exact Hdata]].
    exists []. rewrite Hhit by eauto. rewrite app_nil_r.
    split; [done|]. split; [constructor|]. simpl. lia.
  - destruct Hcount as [Hhits Hcalls]. split; [|split; [lia|exact Hdata]].
    exists [address]. split; [by apply Hmiss|].
    split; [by repeat constructor|]. simpl. lia.
Qed.

Lemma process_records_advanced geocoder sggCd xs : ∀ st st',
  process_records geocoder sggCd st xs = Return st' →
  advanced (length xs) st st'.
Proof.
  induction xs as [|x xs IH]; intros st st'; cbn [process_records].
  - intros [= <-]. apply advanced_refl.
  - destruct (process_record geocoder sggCd st x) as [st1|e] eqn:Hturn;
      [|discriminate].
    cbn [mbind result_bind]. intros Hrest.
    apply (advanced_trans 1 (length xs) st st1 st').
    + by eapply process_record_advanced.
    + by apply IH.
Qed.

(** X17. When the loop over the records of a region is through, every
    record was counted once, as a cache hit or as a call; the calls
    counted are the queries posted to the geocoder, one for one; and
    [data] got at most one entry per record, after those it had. *)
Theorem loop_counts_every_record geocoder sggCd xs st st' :
  process_records geocoder sggCd st xs = Return st' →
  (cache_hit_count st' + api_call_count st'
   = cache_hit_count st + api_call_count st + length xs)%nat
  ∧ (api_call_count st' + length (posted (run st))
     = api_call_count st + length (posted (run st')))%nat
  ∧ ∃ more, data st' = data st ++ more ∧ (length more ≤ length xs)%nat.
Proof.
  intros (_ & (asked & Hposted & _ & Hcalls) & Hcount & Hdata)
    %process_records_advanced.
  split; [exact Hcount|]. split; [|exact Hdata].
  rewrite Hposted, length_app. lia.
Qed.

(** X18. No address the cache holds when the loop starts is posted to
    the geocoder during it, and no entry of the cache is lost or changed:
    the queries of the loop are all for addresses that were not
    cached. *)
Theorem cached_addresses_are_not_asked geocoder sggCd xs st st' :
  process_records geocoder sggCd st xs = Return st' →
  ADDRESS_CACHE (run st) ⊆ ADDRESS_CACHE (run st')
  ∧ ∃ asked,
      posted (run st') = posted (run st) ++ asked
      ∧ ∀ address, is_Some (ADDRESS_CACHE (run st) !! address) →
          address ∉ asked.
Proof.
  intros (Hsub & (asked & Hposted & Hnew & _) & _)%process_records_advanced.
  split; [exact Hsub|]. exists asked. split; [exact Hposted|].
  intros address [v Hv] Hin. rewrite List.Forall_forall in Hnew.
  apply list_elem_of_In in Hin. specialize (Hnew _ Hin). congruence.
Qed.

(** A record with the fields the loop reads has an address. *)
Lemma address_of_returns sggCd x :
  complete x = true → ∃ address, address_of sggCd x = Return address.
Proof.
  unfold complete. cbn [forallb]. intros [Hu [Hj _]%andb_prop]%andb_prop.
  apply bool_decide_eq_true_1 in Hu as [umdNm Hu].
  apply bool_decide_eq_true_1 in Hj as [jibun Hj].
  unfold address_of, field. rewrite Hu, Hj. cbn. by eexists.
Qed.

Lemma process_record_returns geocoder sggCd st x :
  complete x = true →
  map_Forall (λ _ v, unpacks v = true) (ADDRESS_CACHE (run st)) →
  ∃ st',
    process_record geocoder sggCd st x = Return st'
    ∧ map_Forall (λ _ v, unpacks v = true) (ADDRESS_CACHE (run st')).
Proof.
  intros Hx Hcache.
  destruct (address_of_returns sggCd x Hx) as [address Haddress].
  assert (Hfields :
    forallb (λ name, bool_decide (is_Some (x !! name))) entry_fields = true).
  { unfold complete in Hx. cbn [forallb] in Hx.
    by apply andb_prop in Hx as [_ [_ Hx]%andb_prop]. }
  assert (Hresolved : ∃ place_name lat lng,
            unpack3 (get_lat_lon geocoder address (run st)).1
            = Return (place_name, lat, lng)
            ∧ map_Forall (λ _ v, unpacks v = true)
                (ADDRESS_CACHE (get_lat_lon geocoder address (run st)).2)).
  { destruct (ADDRESS_CACHE (run st) !! address) as [v|] eqn:Hv.
    - unfold get_lat_lon. rewrite Hv. simpl.
      pose proof (Hcache _ _ Hv) as Hunpacks. unfold unpacks in Hunpacks.
      simpl in Hunpacks.
      destruct (unpack3 v) as [[[place_name lat] lng]|]; [|discriminate].
      by exists place_name, lat, lng.
    - destruct (ResolverMore.miss_shape geocoder address (run st) Hv)
        as (place_name & lat & lng & Hresult & _ & Hcache').
      exists place_name, lat, lng. rewrite Hresult. split; [done|].
      destruct Hcache' as [-> | ->]; [done|].
      by apply map_Forall_insert_2. }
  destruct Hresolved as (place_name & lat & lng & Hunpack & Hcache').
  unfold process_record. rewrite (bind_return _ _ _ Haddress).
  destruct (get_lat_lon geocoder address (run st)) as [resolved run'].
  simpl in Hunpack, Hcache'. rewrite (bind_return _ _ _ Hunpack).
  destruct (truthy lat && truthy lng).
  - destruct (entry_of_returns sggCd x address place_name lat lng Hfields)
      as (entry & -> & _).
    cbn [mbind result_bind]. by eexists.
  - by eexists.
Qed.

(** X19. The loop over the records of a region raises nothing when every
    record has the fields it reads and every value the cache was loaded
    with unpacks into three: whatever the geocoder answers, also when it
    fails or answers nonsense, the loop comes to its end, and the cache
    it leaves unpacks into three at every address again. *)
Theorem loop_returns geocoder sggCd xs : ∀ st,
  Forall (λ x, complete x = true) xs →
  map_Forall (λ _ v, unpacks v = true) (ADDRESS_CACHE (run st)) →
  ∃ st',
    process_records geocoder sggCd st xs = Return st'
    ∧ map_Forall (λ _ v, unpacks v = true) (ADDRESS_CACHE (run st')).
Proof.
  induction xs as [|x xs IH]; intros st Hxs Hcache.
  - by exists st.
  - apply Forall_cons in Hxs as [Hx Hxs].
    destruct (process_record_returns geocoder sggCd st x Hx Hcache)
      as (st1 & Hturn & Hcache1).
    destruct (IH st1 Hxs Hcache1) as (st' & Hrest & Hcache').
    exists st'. cbn [process_records]. by rewrite Hturn.
Qed.

(** X20. A value of the cache file that does not unpack into three, an
    array of two say, ends the run at the first record with that
    address: the unpacking raises outside any [try], before the record
    is looked at further, and the records after it are not reached. *)
Theorem malformed_cache_entry_ends_the_run geocoder sggCd st x xs
    address v e :
  address_of sggCd x = Return address →
  ADDRESS_CACHE (run st) !! address = Some v →
  unpack3 v = Raise e →
  process_records geocoder sggCd st (x :: xs) = Raise e.
Proof.
  intros Haddress Hv Hunpack. cbn [process_records].
  unfold process_record. rewrite (bind_return _ _ _ Haddress).
  unfold get_lat_lon. rewrite Hv, Hunpack. reflexivity.
Qed.

Lemma length_zfill width s :
  length (zfill width s) = (width `max` length s)%nat.
Proof.
  unfold zfill. destruct s as [|c s]; simpl.
  - rewrite length_replicate. lia.
  - destruct ((c =? 43)%N || (c =? 45)%N); simpl;
      rewrite length_app, length_replicate; simpl; lia.
Qed.

(** X21. The date of an entry is the year of the record followed by its
    month and its day, each filled with zeros to two characters and
    never cut: its length is that of the year plus, for month and day
    each, two or the length of the field if that is more; so eight
    characters for a year of four and months and days of one or two. *)
Theorem date_is_padded sggCd x place_name lat lng entry :
  entry_of sggCd x place_name lat lng = Return entry →
  ∃ dealYear dealMonth dealDay,
    x !! lit "dealYear" = Some dealYear
    ∧ x !! lit "dealMonth" = Some dealMonth
    ∧ x !! lit "dealDay" = Some dealDay
    ∧ e_date entry = dealYear ++ zfill 2 dealMonth ++ zfill 2 dealDay
    ∧ length (e_date entry)
      = (length dealYear + 2 `max` length dealMonth
         + 2 `max` length dealDay)%nat.
Proof.
  unfold entry_of, field. intros Hentry.
  destruct (x !! lit "ADDRESS") as [address|]; [|discriminate].
  cbn [mbind result_bind] in Hentry.
  destruct (x !! lit "aptNm") as [aptNm|];
    [|by destruct place_name].
  assert (Hshown : ∃ shown,
            (if place_name is PNone then PStr <$> Return aptNm
             else Return place_name) = Return shown).
  { destruct place_name; by eexists. }
  destruct Hshown as [shown Hshown]. rewrite Hshown in Hentry.
  cbn [mbind result_bind] in Hentry.
  destruct (x !! lit "dealYear") as [dealYear|]; [|discriminate].
  cbn [mbind result_bind] in Hentry.
  destruct (x !! lit "dealMonth") as [dealMonth|]; [|discriminate].
  cbn [mbind result_bind] in Hentry.
  destruct (x !! lit "dealDay") as [dealDay|]; [|discriminate].
  cbn [mbind result_bind] in Hentry.
  destruct (x !! lit "excluUseAr") as [excluUseAr|]; [|discriminate].
  cbn [mbind result_bind] in Hentry.
  destruct (x !! lit "dealingGbn") as [dealingGbn|]; [|discriminate].
  cbn [mbind result_bind] in Hentry.
  destruct (x !! lit "floor") as [floor|]; [|discriminate].
  cbn [mbind result_bind] in Hentry.
  destruct (x !! lit "dealAmount") as [dealAmount|]; [|discriminate].
  cbn [mbind result_bind] in Hentry. injection Hentry as <-.
  exists dealYear, dealMonth, dealDay. simpl.
  do 4 (split; [reflexivity|]).
  rewrite !length_app, !length_zfill. lia.
Qed.

(** *** The regions of a run and the cache file *)

Lemma process_region_advanced session geocoder api_key months st sggCd st' :
  process_region session geocoder api_key months st sggCd = Return st' →
  ∃ n, advanced n st st'.
Proof.
  destruct months as [[today_month before_1_month] before_2_month].
  unfold process_region.
  destruct (fetch_all_apt_trade_data_async session api_key (code sggCd)
              today_month 10) as [r0|e]; [|discriminate].
  cbn [fmap result_fmap mbind result_bind].
  destruct (fetch_all_apt_trade_data_async session api_key (code sggCd)
              before_1_month 10) as [r1|e]; [|discriminate].
  cbn [fmap result_fmap mbind result_bind].
  destruct (fetch_all_apt_trade_data_async session api_key (code sggCd)
              before_2_month 10) as [r2|e]; [|discriminate].
  cbn [fmap result_fmap mbind result_bind].
  intros Hloop%process_records_advanced. by eexists.
Qed.

Lemma process_regions_advanced session geocoder api_key months regions :
  ∀ st st',
    process_regions session geocoder api_key months st regions = Return st' →
    ∃ n, advanced n st st'.
Proof.
  induction regions as [|sggCd regions IH]; intros st st';
    cbn [process_regions].
  - intros [= <-]. exists 0%nat. apply advanced_refl.
  - destruct (process_region session geocoder api_key months st sggCd)
      as [st1|e] eqn:Hregion; [|discriminate].
    cbn [mbind result_bind]. intros Hrest.
    destruct (process_region_advanced _ _ _ _ _ _ _ Hregion) as [n Hn].
    destruct (IH _ _ Hrest) as [m Hm].
    exists (n + m)%nat. by eapply advanced_trans.
Qed.

(** What was read from a file is written and read back as it is. *)
Lemma loaded_value_round_trip file cache address v :
  Cache.load file = Some cache → cache !! address = Some v →
  decode (encode v) = v.
Proof.
  intros Hload Hv.
  assert (Hj : ∃ j, v = decode j).
  { destruct file as [| |[| | | | | |members]]; simpl in Hload;
      try discriminate; injection Hload as <-;
      try by rewrite lookup_empty in Hv.
    unfold Cache.dict_of in Hv.
    apply elem_of_list_to_map_2 in Hv. rewrite elem_of_reverse in Hv.
    apply list_elem_of_fmap in Hv as ([k j] & [= -> ->] & _).
    by exists j. }
  destruct Hj as [j ->].
  rewrite CacheFacts.decode_encode by apply CacheFacts.distinct_keys_decode.
  apply CacheFacts.listify_decode.
Qed.

(** X22. From one run to the next: when a run comes to the end of its
    loop with a cache the UTF-8 file can hold, every entry of the cache
    file it was started with is in the cache file it leaves, with the
    same value, whatever the two services answered in between and
    whether or not [data.json] could be written; and its address was not
    posted to the geocoder during the run. When both files are written,
    the cache file holds the addresses of the final cache and no
    other. *)
Theorem entries_survive_a_run session geocoder api_key months regions
    file st st' :
  Cache.load file = Some (ADDRESS_CACHE (run st)) →
  process_regions session geocoder api_key months st regions = Return st' →
  Cache.cache_writable (ADDRESS_CACHE (run st')) = true →
  ∃ cache' asked,
    Cache.load (finish file st').1 = Some cache'
    ∧ ADDRESS_CACHE (run st) ⊆ cache'
    ∧ ((finish file st').2 = Return () →
       dom cache' = dom (ADDRESS_CACHE (run st')))
    ∧ posted (run st') = posted (run st) ++ asked
    ∧ ∀ address, is_Some (ADDRESS_CACHE (run st) !! address) →
        address ∉ asked.
Proof.
  intros Hload Hrun Hwritable.
  destruct (process_regions_advanced _ _ _ _ _ _ _ Hrun)
    as (n & Hsub & (asked & Hposted & Hnew & _) & _).
  assert (Hasked : ∀ address,
            is_Some (ADDRESS_CACHE (run st) !! address) → address ∉ asked).
  { intros address [v Hv] Hin. rewrite List.Forall_forall in Hnew.
    apply list_elem_of_In in Hin. specialize (Hnew _ Hin). congruence. }
  unfold finish. destruct (forallb entry_writable (data st')).
  - rewrite (CacheFacts.save_writable _ Hwritable). cbn [fst snd].
    exists ((λ v, decode (encode v)) <$> ADDRESS_CACHE (run st')), asked.
    split; [apply CacheFacts.load_dump|]. split; [|split; [|by split]].
    + apply map_subseteq_spec. intros address v Hv.
      rewrite lookup_fmap.
      rewrite (lookup_weaken _ _ _ _ Hv Hsub). simpl.
      f_equal. by eapply loaded_value_round_trip.
    + intros _. apply dom_fmap_L.
  - cbn [fst snd]. exists (ADDRESS_CACHE (run st)), asked.
    split; [exact Hload|]. split; [reflexivity|]. split; [discriminate|].
    by split.
Qed.

Import Samples MoreSamples.

Lemma loop_counts_every_record_witness :
  ∃ st',
    process_records knows_three JONGNO_GU first_state [trade; trade]
    = Return st'
    ∧ (cache_hit_count st' + api_call_count st' = 2)%nat.
Proof.
  eexists. split; [vm_compute; reflexivity|].
  apply (loop_counts_every_record knows_three JONGNO_GU [trade; trade]
           first_state).
  vm_compute. reflexivity.
Defined.

Lemma cached_addresses_are_not_asked_witness :
  process_records knows_three JONGNO_GU known_state
    [trade; trade_next_door; trade]
  = Return visited_state
  ∧ ADDRESS_CACHE (run visited_state) !! ADDRESS
    = Some (triple (PStr (lit "Flat")) (PStr (lit "37.2"))
              (PStr (lit "127.2")))
  ∧ posted (run visited_state) = [lit "Seoul Jongno-gu Sajik-dong 10"]
  ∧ ADDRESS ∉ posted (run visited_state).
Proof.
  assert (Hrun : process_records knows_three JONGNO_GU known_state
                   [trade; trade_next_door; trade]
                 = Return visited_state) by (vm_compute; reflexivity).
  destruct (cached_addresses_are_not_asked knows_three JONGNO_GU
              [trade; trade_next_door; trade] known_state visited_state
              Hrun)
    as (Hkept & asked & Hposted & Hnot).
  assert (Hknown : ADDRESS_CACHE (run known_state) !! ADDRESS
            = Some (triple (PStr (lit "Flat")) (PStr (lit "37.2"))
                      (PStr (lit "127.2")))) by (vm_compute; reflexivity).
  split; [exact Hrun|].
  split; [exact (lookup_weaken _ _ _ _ Hknown Hkept)|].
  split; [vm_compute; reflexivity|].
  rewrite Hposted. apply (Hnot ADDRESS). rewrite Hknown. by eexists.
Defined.

Lemma loop_returns_witness :
  ∃ st',
    process_records unreachable JONGNO_GU first_state [trade; trade]
    = Return st'.
Proof.
  destruct (loop_returns unreachable JONGNO_GU [trade; trade] first_state)
    as (st' & Hst' & _).
  - repeat constructor.
  - apply map_Forall_empty.
  - by exists st'.
Defined.

Lemma malformed_cache_entry_ends_the_run_witness :
  process_records knows_three JONGNO_GU spoiled_state [trade; trade]
  = Raise ValueError.
Proof.
  apply (malformed_cache_entry_ends_the_run knows_three JONGNO_GU
           spoiled_state trade [trade] ADDRESS (PList [PNone; PNone])).
  - vm_compute. reflexivity.
  - vm_compute. reflexivity.
  - reflexivity.
Defined.

Lemma date_is_padded_witness :
  ∃ entry,
    entry_of JONGNO_GU addressed_trade PNone
      (PStr (lit "37.2")) (PStr (lit "127.2")) = Return entry
    ∧ length (e_date entry) = 8%nat.
Proof.
  eexists. split; [vm_compute; reflexivity|].
  destruct (date_is_padded JONGNO_GU addressed_trade
              PNone (PStr (lit "37.2")) (PStr (lit "127.2")) _
              ltac:(vm_compute; reflexivity))
    as (dealYear & dealMonth & dealDay & Hy & Hm & Hd & _ & Hlength).
  vm_compute in Hy, Hm, Hd.
  injection Hy as <-. injection Hm as <-. injection Hd as <-.
  exact Hlength.
Defined.

Lemma entries_survive_a_run_witness :
  process_regions one_trade knows_three KEY MONTHS loaded_state [JONGNO_GU]
  = Return ended_state
  ∧ (finish old_file ended_state).2 = Return ()
  ∧ ∃ cache',
      Cache.load (finish old_file ended_state).1 = Some cache'
      ∧ ADDRESS_CACHE (run loaded_state) ⊆ cache'
      ∧ dom cache' = dom (ADDRESS_CACHE (run ended_state)).
Proof.
  assert (Hrun : process_regions one_trade knows_three KEY MONTHS
                   loaded_state [JONGNO_GU] = Return ended_state)
    by (vm_compute; reflexivity).
  assert (Hwritten : (finish old_file ended_state).2 = Return ())
    by (vm_compute; reflexivity).
  split; [exact Hrun|]. split; [exact Hwritten|].
  destruct (entries_survive_a_run one_trade knows_three KEY MONTHS
              [JONGNO_GU] old_file loaded_state ended_state eq_refl Hrun)
    as (cache' & asked & Hload & Hsub & Hdom & _).
  - vm_compute. reflexivity.
  - exists cache'. split; [exact Hload|]. split; [exact Hsub|].
    exact (Hdom Hwritten).
Defined.

End MainMore.

(** ** The months of a run *)

Module CalendarFacts.
Import Calendar.

Lemma days_in_month_bounds y m : 28 ≤ days_in_month y m ≤ 31.
Proof.
  unfold days_in_month.
  destruct (m =? 2); [destruct (is_leap y); lia|].
  destruct ((m =? 4) || (m =? 6) || (m =? 9) || (m =? 11)); lia.
Qed.

Lemma valid_spec d :
  valid d = true
  ↔ 1 ≤ year d ≤ 9999 ∧ 1 ≤ month d ≤ 12
    ∧ 1 ≤ day d ≤ days_in_month (year d) (month d).
Proof. unfold valid. rewrite !andb_true_iff, !Z.leb_le. tauto. Qed.

(** The day before the first of a month is the last day of the month
    before it. *)
Lemma day_before_first d :
  valid d = true →
  (year d = 1 ∧ month d = 1 → day_before (first_of_month d) = None)
  ∧ (¬ (year d = 1 ∧ month d = 1) →
     ∃ b, day_before (first_of_month d) = Some b
          ∧ valid b = true
          ∧ month_index b = month_index d - 1
          ∧ day b = days_in_month (year b) (month b)).
Proof.
  intros (Hy & Hm & Hd)%valid_spec. unfold day_before, first_of_month.
  cbn [year month day]. change (1 <? 1) with false. cbv iota.
  split.
  - intros [-> ->]. reflexivity.
  - intros Hfirst. destruct (Z.ltb_spec 1 (month d)) as [Hlt|Hge].
    + eexists. split; [reflexivity|].
      pose proof (days_in_month_bounds (year d) (month d - 1)).
      split; [apply valid_spec; cbn [year month day]; lia|].
      split; [unfold month_index; cbn [year month]; lia|reflexivity].
    + destruct (Z.ltb_spec 1 (year d)) as [Hlty|Hgey]; [|lia].
      eexists. split; [reflexivity|].
      split; [apply valid_spec; cbn [year month day]; cbn; lia|].
      split; [unfold month_index; cbn [year month]; lia|reflexivity].
Qed.

(** X23. The three months a run collects are the month of today and the
    two months before it, in that order and across the turn of a year:
    the second and third date are the last days of the preceding and of
    the second preceding month. Only in January and February of the
    year 1 is there no such date, and the subtraction overflows. *)
Theorem windows_are_three_consecutive_months today :
  valid today = true →
  (windows today = None ↔ year today = 1 ∧ month today ≤ 2)
  ∧ ∀ w0 before_1_month before_2_month,
      windows today = Some (w0, before_1_month, before_2_month) →
      w0 = today
      ∧ valid before_1_month = true ∧ valid before_2_month = true
      ∧ month_index before_1_month = month_index today - 1
      ∧ month_index before_2_month = month_index today - 2
      ∧ day before_1_month
        = days_in_month (year before_1_month) (month before_1_month)
      ∧ day before_2_month
        = days_in_month (year before_2_month) (month before_2_month).
Proof.
  intros Hvalid. pose proof Hvalid as (Hy & Hm & Hd)%valid_spec.
  destruct (day_before_first today Hvalid) as [Hnone1 Hsome1].
  unfold windows.
  destruct (decide (year today = 1 ∧ month today = 1)) as [Hfirst|Hfirst].
  - rewrite (Hnone1 Hfirst). cbn. split; [|discriminate].
    split; [lia|done].
  - destruct (Hsome1 Hfirst) as (b1 & -> & Hvalid1 & Hindex1 & Hlast1).
    cbn [mbind option_bind].
    pose proof Hvalid1 as (Hy1 & Hm1 & Hd1)%valid_spec.
    destruct (day_before_first b1 Hvalid1) as [Hnone2 Hsome2].
    destruct (decide (year b1 = 1 ∧ month b1 = 1)) as [Hfirst1|Hfirst1].
    + rewrite (Hnone2 Hfirst1). cbn. split; [|discriminate].
      split; [|done]. intros _. unfold month_index in Hindex1. lia.
    + destruct (Hsome2 Hfirst1) as (b2 & -> & Hvalid2 & Hindex2 & Hlast2).
      cbn [mbind option_bind]. split.
      * split; [discriminate|]. unfold month_index in Hindex1. lia.
      * intros w0 w1 w2 [= <- <- <-].
        repeat split; try done. lia.
Qed.

Import MoreSamples.

Lemma windows_are_three_consecutive_months_witness :
  ∃ before_1_month before_2_month,
    windows new_year = Some (new_year, before_1_month, before_2_month)
    ∧ month_index before_2_month = month_index new_year - 2.
Proof.
  exists (mkDate 2025 12 31), (mkDate 2025 11 30).
  split; [reflexivity|].
  destruct (proj2 (windows_are_three_consecutive_months new_year eq_refl)
              new_year (mkDate 2025 12 31) (mkDate 2025 11 30) eq_refl)
    as (_ & _ & _ & _ & Hindex & _).
  exact Hindex.
Defined.

End CalendarFacts.

(** ** The POST helper *)

Module PostFacts.
Import Post Resolver.

(** X24. The arguments of a POST: the timeout of ten seconds is always
    there; a JSON body, when given, is sent and the form data is not,
    so never both; form data is sent only without a JSON body; headers
    are passed on unless they are empty or missing; and no argument is
    given twice. *)
Theorem json_body_wins_over_data data json_body headers :
  lookup_item (lit "timeout") (kwargs_of data json_body headers)
  = Some (PInt 10)
  ∧ lookup_item (lit "headers") (kwargs_of data json_body headers)
    = (if truthy headers then Some headers else None)
  ∧ lookup_item (lit "json") (kwargs_of data json_body headers)
    = (if is_none json_body then None else Some json_body)
  ∧ lookup_item (lit "data") (kwargs_of data json_body headers)
    = (if is_none json_body && negb (is_none data) then Some data else None)
  ∧ ¬ (is_Some (lookup_item (lit "json") (kwargs_of data json_body headers))
       ∧ is_Some (lookup_item (lit "data")
                    (kwargs_of data json_body headers)))
  ∧ NoDup (kwargs_of data json_body headers).*1.
Proof.
  unfold kwargs_of.
  destruct (truthy headers), (is_none json_body), (is_none data);
    vm_compute;
    (repeat split;
     [intros [[? ?] [? ?]]; discriminate
     |repeat (apply NoDup_cons; split;
              [rewrite ?elem_of_cons, elem_of_nil; intuition discriminate|]);
      apply NoDup_nil; exact I]).
Qed.

(** The call of [get_lat_lon]: the query as form data, the key in the
    header, no JSON body. *)
Lemma geocoder_call api_key address :
  geocoder_kwargs api_key address
  = [(lit "timeout", PInt 10);
     (lit "headers",
      PDict [(lit "Authorization", PStr (lit "KakaoAK " ++ api_key))]);
     (lit "data", PDict [(lit "query", PStr address)])].
Proof. reflexivity. Qed.

End PostFacts.
